(** * Kernel methods on persistence diagrams

    A shallow embedding of [gudhi/representations/kernel_methods.py]:
    the persistence weighted Gaussian kernel, the persistence scale space
    kernel, the dispatcher [pairwise_persistence_diagram_kernels] and the
    four fit/transform estimators built on it.

    Conventions.
    - Floating-point numbers are idealised as the real numbers [R] of the
      standard library; [np.exp], [np.sqrt] and [np.pi] are [exp], [sqrt]
      and [PI].  Every statement below is a statement about exact real
      arithmetic.  Where the program divides by a bandwidth equal to [0]
      numpy computes with [inf] and [nan], which the real numbers do not
      have; the values of the embedding describe the program for a
      bandwidth other than [0].
    - A one-dimensional numpy array is a [list R], a two-dimensional one is
      the list of its rows.
    - A Python exception is a value of [exn]; code that may raise returns
      a [result].
    - Each of the two kernel functions is given twice: the value it
      computes ([persistence_weighted_gaussian_kernel],
      [persistence_scale_space_kernel]), and the call with its exceptions
      ([persistence_weighted_gaussian_kernel_call],
      [persistence_scale_space_kernel_call]), which returns that value
      unless [pairwise_distances] rejects a diagram without points.  The
      dispatcher runs the calls. *)

From Stdlib Require Import String.
From Stdlib Require Import Reals Lra Lia List Arith Permutation.
Import ListNotations.
Open Scope string_scope.
Open Scope list_scope.
Open Scope bool_scope.
Open Scope R_scope.

(** ** Arrays *)

Abbreviation Vector := (list R).
Abbreviation Matrix := (list (list R)).

Section ArrayOps.
Context {A B C : Type}.

(** Elementwise combination of two arrays of the same length. *)
Fixpoint zip_with (f : A -> B -> C) (u : list A) (v : list B) : list C :=
  match u, v with
  | a :: u', b :: v' => f a b :: zip_with f u' v'
  | _, _ => []
  end.
End ArrayOps.

(** [np.sum] of a one-dimensional array. *)
Definition vsum (v : Vector) : R := fold_right Rplus 0 v.

(** [np.sum(M)]: the sum of all the entries of a two-dimensional array. *)
Definition np_sum (M : Matrix) : R := vsum (map vsum M).

(** [np.multiply(M, N)] on two-dimensional arrays of equal shape. *)
Definition np_multiply (M N : Matrix) : Matrix := zip_with (zip_with Rmult) M N.

(** [np.matmul(u[:,np.newaxis], v[np.newaxis,:])]: the outer product. *)
Definition outer (u v : Vector) : Matrix :=
  map (fun a => map (fun b => a * b) v) u.

(** [np.multiply(ws[:,np.newaxis], T)]: row [i] of [T] scaled by [ws[i]]. *)
Definition scale_rows (ws : Vector) (T : Matrix) : Matrix :=
  zip_with (fun w row => map (Rmult w) row) ws T.

(** [np.sum(T, axis=0)] for an array of shape [(n, d)]: the vector of the
    [d] column sums (all zero when [n = 0]). *)
Definition sum_axis0 (d : nat) (T : Matrix) : Vector :=
  fold_right (zip_with Rplus) (repeat 0 d) T.

(** [np.matmul(u, v.T)] on one-dimensional arrays: the inner product. *)
Definition dot (u v : Vector) : R := vsum (zip_with Rmult u v).

(** Shape [(p, q)] of a two-dimensional array. *)
Definition has_shape (p q : nat) (M : Matrix) : Prop :=
  length M = p /\ Forall (fun row => length row = q) M.

(** Entry [(i, j)] of a two-dimensional array. *)
Definition entry (M : Matrix) (i j : nat) : R := nth j (nth i M []) 0.

(** ** Data model *)

(** A point of a diagram is a row [[birth, death]]. *)
Abbreviation Point := (R * R)%type.
Definition birth (p : Point) : R := fst p.
Definition death (p : Point) : R := snd p.

(** A persistence diagram is an [(n x 2)] array. *)
Abbreviation Diagram := (list (R * R)).

Abbreviation WeightFunction := ((R * R) -> R).

(** The default [weight=lambda x: 1]. *)
Definition default_weight : WeightFunction := fun _ => 1.

(** A kernel approximation object: [transform] maps an [(n x 2)] array to
    an [(n x n_components)] array. *)
Record KernelApproximation := {
  n_components : nat;
  transform : Diagram -> Matrix;
  transform_rows : forall D, length (transform D) = length D;
  transform_cols :
    forall D, Forall (fun row => length row = n_components) (transform D)
}.

(** ** External collaborator: Euclidean pairwise distances *)

Definition euclidean (p q : Point) : R :=
  sqrt (Rsqr (fst p - fst q) + Rsqr (snd p - snd q)).

(** Modelled from the spec: [sklearn.metrics.pairwise_distances(X, Y)] is
    not part of the sources; following the interface description it
    returns the [(n, m)] matrix of Euclidean distances between the points
    of [X] and the points of [Y].  This is the matrix of the values; the
    call, which validates its arguments first, is
    [pairwise_distances_call] below. *)
Definition pairwise_distances (X Y : Diagram) : Matrix :=
  map (fun p : Point => map (euclidean p) Y) X.

(** ** The persistence weighted Gaussian kernel *)

(** The value computed by lines 31-40. *)
Definition persistence_weighted_gaussian_kernel
    (D1 D2 : Diagram) (weight : WeightFunction)
    (kernel_approx : option KernelApproximation) (bandwidth : R) : R :=
  let ws1 := map weight D1 in
  let ws2 := map weight D2 in
  match kernel_approx with
  | Some ka =>
      let approx1 :=
        sum_axis0 (n_components ka) (scale_rows ws1 (transform ka D1)) in
      let approx2 :=
        sum_axis0 (n_components ka) (scale_rows ws2 (transform ka D2)) in
      (1 / (sqrt (2 * PI) * bandwidth)) * dot approx1 approx2
  | None =>
      let W := outer ws1 ws2 in
      let E :=
        map (map (fun d =>
                    (1 / (sqrt (2 * PI) * bandwidth))
                    * exp ((- Rsqr d) / (2 * bandwidth * bandwidth))))
            (pairwise_distances D1 D2) in
      np_sum (np_multiply W E)
  end.

(** ** The persistence scale space kernel *)

(** [D[:,[1,0]]]: the columns of [D] in the order 1, 0. *)
Definition swap_columns (D : Diagram) : Diagram :=
  map (fun x : Point => (snd x, fst x)) D.

(** [lambda x: 1 if x[1] >= x[0] else -1] *)
Definition weight_pss : WeightFunction :=
  fun x => if Rge_dec (snd x) (fst x) then 1 else -1.

(** The value computed by lines 52-55. *)
Definition persistence_scale_space_kernel
    (D1 D2 : Diagram) (kernel_approx : option KernelApproximation)
    (bandwidth : R) : R :=
  let DD1 := D1 ++ swap_columns D1 in
  let DD2 := D2 ++ swap_columns D2 in
  0.5 * persistence_weighted_gaussian_kernel DD1 DD2 weight_pss
          kernel_approx bandwidth.

(** ** Exceptions and results *)

Inductive exn : Type :=
| KeyError (key : string)
| IndexError
| ValueError
| TypeError
| AttributeError.

Inductive result (A : Type) : Type :=
| Ok (a : A)
| Raise (e : exn).

Arguments Ok {A} a.
Arguments Raise {A} e.

Definition bind {A B : Type} (r : result A) (k : A -> result B) : result B :=
  match r with
  | Ok a => k a
  | Raise e => Raise e
  end.

Notation "x <- e ;; k" := (bind e (fun x => k))
  (at level 61, e at next level, right associativity).

(** Evaluation of a list of computations from left to right; the first
    exception aborts the whole list. *)
Fixpoint sequence {A : Type} (l : list (result A)) : result (list A) :=
  match l with
  | [] => Ok []
  | r :: l' => a <- r ;; rest <- sequence l' ;; Ok (a :: rest)
  end.

(** ** The kernel functions as calls *)

(** The call [pairwise_distances(X, Y)]: scikit-learn validates the two
    arrays before it computes any distance and raises [ValueError] for an
    array without rows. *)
Definition pairwise_distances_call (X Y : Diagram) : result Matrix :=
  match X, Y with
  | [], _ => Raise ValueError
  | _, [] => Raise ValueError
  | _ :: _, _ :: _ => Ok (pairwise_distances X Y)
  end.

(** The call [persistence_weighted_gaussian_kernel(D1, D2, weight,
    kernel_approx, bandwidth)], lines 31-40: the weights and their outer
    product are computed first, then [pairwise_distances] is called at
    line 39.  On the approximate path [kernel_approx.transform] is
    supplied by the caller and is taken to return on every diagram. *)
Definition persistence_weighted_gaussian_kernel_call
    (D1 D2 : Diagram) (weight : WeightFunction)
    (kernel_approx : option KernelApproximation) (bandwidth : R)
  : result R :=
  let ws1 := map weight D1 in
  let ws2 := map weight D2 in
  match kernel_approx with
  | Some ka =>
      let approx1 :=
        sum_axis0 (n_components ka) (scale_rows ws1 (transform ka D1)) in
      let approx2 :=
        sum_axis0 (n_components ka) (scale_rows ws2 (transform ka D2)) in
      Ok ((1 / (sqrt (2 * PI) * bandwidth)) * dot approx1 approx2)
  | None =>
      let W := outer ws1 ws2 in
      distances <- pairwise_distances_call D1 D2 ;;
      let E :=
        map (map (fun d =>
                    (1 / (sqrt (2 * PI) * bandwidth))
                    * exp ((- Rsqr d) / (2 * bandwidth * bandwidth))))
            distances in
      Ok (np_sum (np_multiply W E))
  end.

(** The call [persistence_scale_space_kernel(D1, D2, kernel_approx,
    bandwidth)], lines 52-55. *)
Definition persistence_scale_space_kernel_call
    (D1 D2 : Diagram) (kernel_approx : option KernelApproximation)
    (bandwidth : R) : result R :=
  let DD1 := D1 ++ swap_columns D1 in
  let DD2 := D2 ++ swap_columns D2 in
  K <- persistence_weighted_gaussian_kernel_call DD1 DD2 weight_pss
         kernel_approx bandwidth ;;
  Ok (0.5 * K).

(** ** Keyword arguments *)

(** The [**kwargs] dictionary, restricted to the keys the module knows
    about; a field is [None] when the key is absent.  The value stored
    under ["kernel_approx"] may itself be Python's [None]. *)
Record Kwargs := {
  kw_num_directions : option Z;
  kw_bandwidth : option R;
  kw_bandwidth_fisher : option R;
  kw_kernel_approx : option (option KernelApproximation);
  kw_weight : option WeightFunction
}.

Definition no_kwargs : Kwargs :=
  {| kw_num_directions := None; kw_bandwidth := None;
     kw_bandwidth_fisher := None; kw_kernel_approx := None;
     kw_weight := None |}.

(** [kwargs[key]]: a missing key raises [KeyError key]. *)
Definition getitem {A : Type} (key : string) (field : option A) : result A :=
  match field with
  | Some v => Ok v
  | None => Raise (KeyError key)
  end.

Definition is_present {A : Type} (field : option A) : bool :=
  match field with Some _ => true | None => false end.

(** The value bound to a parameter with a default: the keyword argument
    when it is given, the default of the signature ([weight=lambda x: 1],
    [kernel_approx=None], [bandwidth=1.]) otherwise. *)
Definition weight_or_default (kwargs : Kwargs) : WeightFunction :=
  match kw_weight kwargs with Some w => w | None => default_weight end.

Definition kernel_approx_or_default (kwargs : Kwargs)
  : option KernelApproximation :=
  match kw_kernel_approx kwargs with Some ka => ka | None => None end.

Definition bandwidth_or_default (kwargs : Kwargs) : R :=
  match kw_bandwidth kwargs with Some b => b | None => 1 end.

(** [persistence_weighted_gaussian_kernel(D1, D2, **kwargs)]: a keyword
    that is not a parameter of the function is a [TypeError]; absent
    keywords take their default values. *)
Definition call_persistence_weighted_gaussian_kernel
    (D1 D2 : Diagram) (kwargs : Kwargs) : result R :=
  if is_present (kw_num_directions kwargs)
     || is_present (kw_bandwidth_fisher kwargs)
  then Raise TypeError
  else
    persistence_weighted_gaussian_kernel_call D1 D2
      (weight_or_default kwargs) (kernel_approx_or_default kwargs)
      (bandwidth_or_default kwargs).

(** [persistence_scale_space_kernel(D1, D2, **kwargs)] *)
Definition call_persistence_scale_space_kernel
    (D1 D2 : Diagram) (kwargs : Kwargs) : result R :=
  if is_present (kw_num_directions kwargs)
     || is_present (kw_bandwidth_fisher kwargs)
     || is_present (kw_weight kwargs)
  then Raise TypeError
  else
    persistence_scale_space_kernel_call D1 D2
      (kernel_approx_or_default kwargs) (bandwidth_or_default kwargs).

(** The [metric] argument of the dispatcher: a string, or a function
    taking two diagrams and the keyword arguments. *)
Inductive Metric : Type :=
| MetricName (name : string)
| MetricCallable (f : Diagram -> Diagram -> Kwargs -> result R).

(** [metric == name] for a string literal [name]; a function is never
    equal to a string. *)
Definition metric_eq (metric : Metric) (name : string) : bool :=
  match metric with
  | MetricName s => String.eqb s name
  | MetricCallable _ => false
  end.

(** [metric(D1, D2, **kwargs)] in the fallback branch: a string is not
    callable. *)
Definition call_metric (metric : Metric) (D1 D2 : Diagram) (kwargs : Kwargs)
  : result R :=
  match metric with
  | MetricName _ => Raise TypeError
  | MetricCallable f => f D1 D2 kwargs
  end.

(** ** External collaborators of the dispatcher *)

(** Modelled from the spec: [Padding(use=True).fit_transform] lives in
    [preprocessing.py], which is not part of the sources.  Every diagram
    becomes an array of shape [(L, 3)], [L] being the largest diagram size
    of the batch: a genuine point is the row [[birth, death, 1]] and the
    filler rows are the diagonal point [[0, 0, 0]]. *)
Definition max_pts (X : list Diagram) : nat :=
  fold_right (fun D m => Nat.max (length D) m) 0%nat X.

Definition pad_diagram (L : nat) (D : Diagram) : Matrix :=
  map (fun p : Point => [fst p; snd p; 1]) D ++ repeat [0; 0; 0] (L - length D).

Definition Padding_fit_transform (X : list Diagram) : list Matrix :=
  map (pad_diagram (max_pts X)) X.

(** The padded diagram as one flat row of [3 L] numbers. *)
Definition flatten_padded (L : nat) (D : Diagram) : Vector :=
  concat (pad_diagram L D).

(** Rows of [k] consecutive entries of a flat array. *)
Fixpoint chunks (fuel k : nat) (l : Vector) : Matrix :=
  match fuel with
  | O => []
  | S fuel' =>
      match l with
      | [] => []
      | _ :: _ => firstn k l :: chunks fuel' k (skipn k l)
      end
  end.

(** [np.vstack(arrays)]: an empty sequence of arrays is a [ValueError]. *)
Definition np_vstack (arrays : list Matrix) : result Matrix :=
  match arrays with
  | [] => Raise ValueError
  | _ :: _ => Ok (concat arrays)
  end.

(** [np.reshape(M, [-1, k])]: the number of rows is inferred, which is a
    [ValueError] when [k = 0] or when [k] does not divide the size. *)
Definition np_reshape (M : Matrix) (k : nat) : result Matrix :=
  let flat := concat M in
  if (k =? 0)%nat then Raise ValueError
  else if (length flat mod k =? 0)%nat
       then Ok (chunks (length flat) k flat)
       else Raise ValueError.

(** [len(pX[0])] *)
Definition len_first (pX : list Matrix) : result nat :=
  match pX with
  | [] => Raise IndexError
  | M :: _ => Ok (length M)
  end.

(** Modelled from the spec: [sklearn_wrapper] lives in [metrics.py], which
    is not part of the sources.  It turns a two-diagram function into a
    function of two flattened padded rows, rebuilding each raw diagram
    from the rows whose validity flag is 1. *)
Definition unpad (row : Vector) : Diagram :=
  flat_map (fun r =>
              match r with
              | [b; d; flag] => if Req_dec_T flag 1 then [(b, d)] else []
              | _ => []
              end)
           (chunks (length row) 3 row).

Definition sklearn_wrapper
    (metric : Diagram -> Diagram -> Kwargs -> result R) (kwargs : Kwargs)
  : Vector -> Vector -> result R :=
  fun D1 D2 => metric (unpad D1) (unpad D2) kwargs.

(** Modelled from the spec: [sklearn.metrics.pairwise_kernels(XX, YY,
    metric=f)] with a callable [f] builds the matrix of the values
    [f(XX[i], YY[j])], with [YY = XX] when [YY] is [None]. *)
Definition pairwise_kernels
    (XX : Matrix) (YY : option Matrix) (metric : Vector -> Vector -> result R)
  : result Matrix :=
  let YY' := match YY with Some YY => YY | None => XX end in
  sequence (map (fun x => sequence (map (fun y => metric x y) YY')) XX).

(** The type of [pairwise_persistence_diagram_distances(X, Y, metric=...,
    **kwargs)] of [metrics.py], the batched diagram distance.  It is a
    parameter of everything below. *)
Definition DiagramDistances : Type :=
  list Diagram -> option (list Diagram) -> string -> Kwargs -> result Matrix.

(** ** The dispatcher *)

(** Lines 66-76: the padded, flattened representation of the batch. *)
Definition padded_representation
    (X : list Diagram) (Y : option (list Diagram))
  : result (Matrix * option Matrix) :=
  match Y with
  | None =>
      let pX := Padding_fit_transform X in
      diag_len <- len_first pX ;;
      stacked <- np_vstack pX ;;
      XX <- np_reshape stacked (diag_len * 3) ;;
      Ok (XX, None)
  | Some Y =>
      let nX := length X in
      let pD := Padding_fit_transform (X ++ Y) in
      diag_len <- len_first pD ;;
      stackedX <- np_vstack (firstn nX pD) ;;
      XX <- np_reshape stackedX (diag_len * 3) ;;
      stackedY <- np_vstack (skipn nX pD) ;;
      YY <- np_reshape stackedY (diag_len * 3) ;;
      Ok (XX, Some YY)
  end.

(** [np.exp(-Dist / b)] *)
Definition exp_neg_div (Dist : Matrix) (b : R) : Matrix :=
  map (map (fun d => exp ((- d) / b))) Dist.

Definition pairwise_persistence_diagram_kernels
    (pairwise_persistence_diagram_distances : DiagramDistances)
    (X : list Diagram) (Y : option (list Diagram))
    (metric : Metric) (kwargs : Kwargs) : result Matrix :=
  padded <- padded_representation X Y ;;
  let XX := fst padded in
  let YY := snd padded in
  if metric_eq metric "sliced_wasserstein" then
    num_directions <- getitem "num_directions" (kw_num_directions kwargs) ;;
    Dist <- pairwise_persistence_diagram_distances X Y "sliced_wasserstein"
              {| kw_num_directions := Some num_directions;
                 kw_bandwidth := None; kw_bandwidth_fisher := None;
                 kw_kernel_approx := None; kw_weight := None |} ;;
    b <- getitem "bandwidth" (kw_bandwidth kwargs) ;;
    Ok (exp_neg_div Dist b)
  else if metric_eq metric "persistence_fisher" then
    kernel_approx <- getitem "kernel_approx" (kw_kernel_approx kwargs) ;;
    bandwidth <- getitem "bandwidth" (kw_bandwidth kwargs) ;;
    Dist <- pairwise_persistence_diagram_distances X Y "persistence_fisher"
              {| kw_num_directions := None;
                 kw_bandwidth := Some bandwidth; kw_bandwidth_fisher := None;
                 kw_kernel_approx := Some kernel_approx; kw_weight := None |} ;;
    b <- getitem "bandwidth_fisher" (kw_bandwidth_fisher kwargs) ;;
    Ok (exp_neg_div Dist b)
  else if metric_eq metric "persistence_scale_space" then
    pairwise_kernels XX YY
      (sklearn_wrapper call_persistence_scale_space_kernel kwargs)
  else if metric_eq metric "persistence_weighted_gaussian" then
    pairwise_kernels XX YY
      (sklearn_wrapper call_persistence_weighted_gaussian_kernel kwargs)
  else
    pairwise_kernels XX YY (sklearn_wrapper (call_metric metric) kwargs).

(** ** The estimators *)

(** [self.diagrams_]: reading the attribute before [fit] has set it is an
    [AttributeError]. *)
Definition getattr_diagrams (field : option (list Diagram))
  : result (list Diagram) :=
  match field with
  | Some X => Ok X
  | None => Raise AttributeError
  end.

Module SlicedWassersteinKernel.
Record t := {
  bandwidth : R;
  num_directions : Z;
  diagrams_ : option (list Diagram)
}.

Definition init (num_directions : Z) (bandwidth : R) : t :=
  {| bandwidth := bandwidth; num_directions := num_directions;
     diagrams_ := None |}.

Definition fit (self : t) (X : list Diagram) : t :=
  {| bandwidth := bandwidth self; num_directions := num_directions self;
     diagrams_ := Some X |}.

Definition transform (distances : DiagramDistances) (self : t)
    (X : list Diagram) : result Matrix :=
  diagrams <- getattr_diagrams (diagrams_ self) ;;
  pairwise_persistence_diagram_kernels distances X (Some diagrams)
    (MetricName "sliced_wasserstein")
    {| kw_num_directions := Some (num_directions self);
       kw_bandwidth := Some (bandwidth self);
       kw_bandwidth_fisher := None; kw_kernel_approx := None;
       kw_weight := None |}.
End SlicedWassersteinKernel.

Module PersistenceWeightedGaussianKernel.
Record t := {
  bandwidth : R;
  weight : WeightFunction;
  kernel_approx : option KernelApproximation;
  diagrams_ : option (list Diagram)
}.

Definition init (bandwidth : R) (weight : WeightFunction)
    (kernel_approx : option KernelApproximation) : t :=
  {| bandwidth := bandwidth; weight := weight;
     kernel_approx := kernel_approx; diagrams_ := None |}.

Definition fit (self : t) (X : list Diagram) : t :=
  {| bandwidth := bandwidth self; weight := weight self;
     kernel_approx := kernel_approx self; diagrams_ := Some X |}.

Definition transform (distances : DiagramDistances) (self : t)
    (X : list Diagram) : result Matrix :=
  diagrams <- getattr_diagrams (diagrams_ self) ;;
  pairwise_persistence_diagram_kernels distances X (Some diagrams)
    (MetricName "persistence_weighted_gaussian")
    {| kw_num_directions := None;
       kw_bandwidth := Some (bandwidth self);
       kw_bandwidth_fisher := None;
       kw_kernel_approx := Some (kernel_approx self);
       kw_weight := Some (weight self) |}.
End PersistenceWeightedGaussianKernel.

Module PersistenceScaleSpaceKernel.
Record t := {
  bandwidth : R;
  kernel_approx : option KernelApproximation;
  diagrams_ : option (list Diagram)
}.

Definition init (bandwidth : R)
    (kernel_approx : option KernelApproximation) : t :=
  {| bandwidth := bandwidth; kernel_approx := kernel_approx;
     diagrams_ := None |}.

Definition fit (self : t) (X : list Diagram) : t :=
  {| bandwidth := bandwidth self; kernel_approx := kernel_approx self;
     diagrams_ := Some X |}.

Definition transform (distances : DiagramDistances) (self : t)
    (X : list Diagram) : result Matrix :=
  diagrams <- getattr_diagrams (diagrams_ self) ;;
  pairwise_persistence_diagram_kernels distances X (Some diagrams)
    (MetricName "persistence_scale_space")
    {| kw_num_directions := None;
       kw_bandwidth := Some (bandwidth self);
       kw_bandwidth_fisher := None;
       kw_kernel_approx := Some (kernel_approx self);
       kw_weight := None |}.
End PersistenceScaleSpaceKernel.

Module PersistenceFisherKernel.
Record t := {
  bandwidth : R;
  bandwidth_fisher : R;
  kernel_approx : option KernelApproximation;
  diagrams_ : option (list Diagram)
}.

Definition init (bandwidth_fisher bandwidth : R)
    (kernel_approx : option KernelApproximation) : t :=
  {| bandwidth := bandwidth; bandwidth_fisher := bandwidth_fisher;
     kernel_approx := kernel_approx; diagrams_ := None |}.

Definition fit (self : t) (X : list Diagram) : t :=
  {| bandwidth := bandwidth self;
     bandwidth_fisher := bandwidth_fisher self;
     kernel_approx := kernel_approx self; diagrams_ := Some X |}.

Definition transform (distances : DiagramDistances) (self : t)
    (X : list Diagram) : result Matrix :=
  diagrams <- getattr_diagrams (diagrams_ self) ;;
  pairwise_persistence_diagram_kernels distances X (Some diagrams)
    (MetricName "persistence_fisher")
    {| kw_num_directions := None;
       kw_bandwidth := Some (bandwidth self);
       kw_bandwidth_fisher := Some (bandwidth_fisher self);
       kw_kernel_approx := Some (kernel_approx self);
       kw_weight := None |}.
End PersistenceFisherKernel.

(** ** Reference formulas *)

(** The sum of [f 0], ..., [f (n - 1)]. *)
Definition big_sum (n : nat) (f : nat -> R) : R :=
  vsum (map f (seq 0 n)).

(** The Euclidean norm of a vector of the plane, and the difference of two
    points. *)
Definition norm (v : Point) : R := sqrt (fst v * fst v + snd v * snd v).
Definition psub (p q : Point) : Point := (fst p - fst q, snd p - snd q).

(** The closed form of the exact weighted Gaussian kernel:
    [(1 / (sqrt(2 pi) b)) * sum_i sum_j w(D1[i]) w(D2[j])
       exp(- |D1[i] - D2[j]|^2 / (2 b^2))]. *)
Definition weighted_gaussian_formula
    (D1 D2 : Diagram) (weight : WeightFunction) (b : R) : R :=
  (1 / (sqrt (2 * PI) * b))
  * big_sum (length D1) (fun i =>
      big_sum (length D2) (fun j =>
        weight (nth i D1 (0, 0)) * weight (nth j D2 (0, 0))
        * exp (- (norm (psub (nth i D1 (0, 0)) (nth j D2 (0, 0))) ^ 2)
               / (2 * b ^ 2)))).

(** The Gaussian factor of a pair of points on the exact path:
    [exp(-d(p, q)^2 / (2 b^2))], [d] being the entry of
    [pairwise_distances]. *)
Definition gauss (b : R) (p q : Point) : R :=
  exp ((- Rsqr (euclidean p q)) / (2 * b * b)).

(** The normalisation [1 / (sqrt(2 pi) b)] of both paths. *)
Definition normalisation (b : R) : R := 1 / (sqrt (2 * PI) * b).

(** A kernel approximation with a single constant feature, for running the
    approximate path on concrete inputs. *)
Definition constant_features : KernelApproximation.
Proof.
  refine {| n_components := 1;
            transform := fun D => map (fun _ => [1]) D |}.
  - intros D. apply length_map.
  - intros D. apply Forall_forall. intros row H.
    apply in_map_iff in H. destruct H as [p [H _]]. now subst row.
Defined.

(** The mirror image of a point across the diagonal, and the augmented
    diagram: the points of [D] followed by their mirror images. *)
Definition mirror (p : Point) : Point := (death p, birth p).
Definition augmented (D : Diagram) : Diagram := D ++ map mirror D.

(** The matrix of the values [k A[i] B[j]]. *)
Definition gram (k : Diagram -> Diagram -> R) (A B : list Diagram) : Matrix :=
  map (fun a => map (fun b => k a b) B) A.

(** [M] is the matrix with one row per diagram of [A] and one column per
    diagram of [B] whose entry [(i, j)] is [value i j]. *)
Definition is_kernel_matrix (A B : list Diagram) (value : nat -> nat -> R)
    (M : Matrix) : Prop :=
  has_shape (length A) (length B) M
  /\ forall i j, (i < length A)%nat -> (j < length B)%nat ->
                 entry M i j = value i j.

(** A symmetric matrix: entry [(i, j)] equals entry [(j, i)]. *)
Definition symmetric (M : Matrix) : Prop :=
  forall i j, (i < length M)%nat -> (j < length M)%nat ->
              entry M i j = entry M j i.

(** A diagram distance for running the dispatcher on concrete inputs:
    every diagram is at distance [0] from every other one. *)
Definition zero_distances : DiagramDistances :=
  fun X Y _ _ =>
    Ok (map (fun _ => map (fun _ => 0) (match Y with Some Y => Y | None => X end)) X).

(** A diagram distance that reports the [bandwidth] it was called with as
    the distance of every pair (and raises when it received none). *)
Definition bandwidth_distances : DiagramDistances :=
  fun X Y _ kwargs =>
    b <- getitem "bandwidth" (kw_bandwidth kwargs) ;;
    Ok (map (fun _ => map (fun _ => b) (match Y with Some Y => Y | None => X end)) X).

(** * Properties *)

(** ** Sums over lists *)

Section Sums.
Context {A : Type}.

Lemma vsum_map_plus (f g : A -> R) (l : list A) :
  vsum (map (fun x => f x + g x) l) = vsum (map f l) + vsum (map g l).
Proof.
  induction l as [|x l IH]; simpl; [lra|].
  rewrite IH. lra.
Qed.

Lemma vsum_map_scal (c : R) (f : A -> R) (l : list A) :
  vsum (map (fun x => c * f x) l) = c * vsum (map f l).
Proof.
  induction l as [|x l IH]; simpl; [lra|].
  rewrite IH. lra.
Qed.

Lemma vsum_map_zero (l : list A) : vsum (map (fun _ => 0) l) = 0.
Proof. induction l as [|x l IH]; simpl; [reflexivity|]. rewrite IH. lra. Qed.

Lemma vsum_map_ext (f g : A -> R) (l : list A) :
  (forall x, In x l -> f x = g x) -> vsum (map f l) = vsum (map g l).
Proof. intros H. f_equal. now apply map_ext_in. Qed.

Lemma zip_with_map {C D E : Type} (f : C -> D -> E) (g : A -> C)
    (h : A -> D) (l : list A) :
  zip_with f (map g l) (map h l) = map (fun x => f (g x) (h x)) l.
Proof. induction l as [|x l IH]; simpl; [reflexivity|]. now rewrite IH. Qed.

(** A sum over the positions of a list is the sum over its elements. *)
Lemma big_sum_nth (f : A -> R) (l : list A) (d : A) :
  big_sum (length l) (fun i => f (nth i l d)) = vsum (map f l).
Proof.
  unfold big_sum. induction l as [|x l IH]; simpl; [reflexivity|].
  rewrite <- seq_shift, map_map. simpl. now rewrite IH.
Qed.
End Sums.

Section DoubleSums.
Context {A B : Type}.

(** Exchange of the two summations of a double sum. *)
Lemma vsum_swap (F : A -> B -> R) (l1 : list A) (l2 : list B) :
  vsum (map (fun a => vsum (map (fun b => F a b) l2)) l1)
  = vsum (map (fun b => vsum (map (fun a => F a b) l1)) l2).
Proof.
  induction l1 as [|a l1 IH]; simpl.
  - symmetry. apply (vsum_map_zero l2).
  - rewrite IH. now rewrite <- vsum_map_plus.
Qed.
End DoubleSums.

Lemma dot_comm (u v : Vector) : dot u v = dot v u.
Proof.
  unfold dot. revert v.
  induction u as [|a u IH]; intros [|b v]; simpl; try reflexivity.
  rewrite IH. lra.
Qed.

(** ** The exact path as a double sum *)

Lemma exact_path_double_sum (D1 D2 : Diagram) (w : WeightFunction) (b : R) :
  persistence_weighted_gaussian_kernel D1 D2 w None b
  = vsum (map (fun p => vsum (map (fun q =>
      w p * w q
      * ((1 / (sqrt (2 * PI) * b))
         * exp ((- Rsqr (euclidean p q)) / (2 * b * b)))) D2)) D1).
Proof.
  unfold persistence_weighted_gaussian_kernel, np_sum, np_multiply, outer,
    pairwise_distances.
  rewrite !map_map, zip_with_map, map_map.
  apply vsum_map_ext. intros p _.
  now rewrite !map_map, zip_with_map.
Qed.

Lemma euclidean_sym (p q : Point) : euclidean p q = euclidean q p.
Proof.
  unfold euclidean. f_equal. unfold Rsqr. ring.
Qed.

Lemma Rsqr_euclidean (p q : Point) :
  Rsqr (euclidean p q) = norm (psub p q) ^ 2.
Proof.
  unfold euclidean, norm, psub, Rsqr. simpl. ring.
Qed.

Lemma weighted_gaussian_sym (D1 D2 : Diagram) (w : WeightFunction)
    (ka : option KernelApproximation) (b : R) :
  persistence_weighted_gaussian_kernel D1 D2 w ka b
  = persistence_weighted_gaussian_kernel D2 D1 w ka b.
Proof.
  destruct ka as [ka|].
  - unfold persistence_weighted_gaussian_kernel. now rewrite dot_comm.
  - rewrite !exact_path_double_sum, vsum_swap.
    apply vsum_map_ext. intros q _. apply vsum_map_ext. intros p _.
    rewrite (euclidean_sym p q). ring.
Qed.

Lemma scale_space_sym (D1 D2 : Diagram) (ka : option KernelApproximation)
    (b : R) :
  persistence_scale_space_kernel D1 D2 ka b
  = persistence_scale_space_kernel D2 D1 ka b.
Proof.
  unfold persistence_scale_space_kernel.
  now rewrite weighted_gaussian_sym.
Qed.

(** ** The calls of the kernel functions *)

(** On diagrams that have points the call returns the value. *)
Lemma weighted_gaussian_call_Ok (D1 D2 : Diagram) (w : WeightFunction)
    (ka : option KernelApproximation) (b : R) :
  D1 <> [] -> D2 <> [] ->
  persistence_weighted_gaussian_kernel_call D1 D2 w ka b
  = Ok (persistence_weighted_gaussian_kernel D1 D2 w ka b).
Proof.
  intros H1 H2.
  destruct D1 as [|p D1]; [congruence|].
  destruct D2 as [|q D2]; [congruence|].
  destruct ka; reflexivity.
Qed.

(** Whenever the call returns, it returns the value. *)
Lemma weighted_gaussian_call_value (D1 D2 : Diagram) (w : WeightFunction)
    (ka : option KernelApproximation) (b r : R) :
  persistence_weighted_gaussian_kernel_call D1 D2 w ka b = Ok r ->
  r = persistence_weighted_gaussian_kernel D1 D2 w ka b.
Proof.
  destruct ka as [ka|].
  - intros H. injection H as <-. reflexivity.
  - destruct D1 as [|p D1]; [discriminate|].
    destruct D2 as [|q D2]; [discriminate|].
    intros H. injection H as <-. reflexivity.
Qed.

Lemma weighted_gaussian_call_sym (D1 D2 : Diagram) (w : WeightFunction)
    (ka : option KernelApproximation) (b : R) :
  persistence_weighted_gaussian_kernel_call D1 D2 w ka b
  = persistence_weighted_gaussian_kernel_call D2 D1 w ka b.
Proof.
  destruct ka as [ka|].
  - pose proof (weighted_gaussian_sym D1 D2 w (Some ka) b) as H.
    unfold persistence_weighted_gaussian_kernel in H.
    unfold persistence_weighted_gaussian_kernel_call. now rewrite H.
  - destruct D1 as [|p D1], D2 as [|q D2]; try reflexivity.
    rewrite !weighted_gaussian_call_Ok by discriminate.
    now rewrite weighted_gaussian_sym.
Qed.

Lemma augmented_not_empty (D : Diagram) :
  D <> [] -> D ++ swap_columns D <> [].
Proof. destruct D; [congruence | discriminate]. Qed.

Lemma scale_space_call_Ok (D1 D2 : Diagram)
    (ka : option KernelApproximation) (b : R) :
  D1 <> [] -> D2 <> [] ->
  persistence_scale_space_kernel_call D1 D2 ka b
  = Ok (persistence_scale_space_kernel D1 D2 ka b).
Proof.
  intros H1 H2. unfold persistence_scale_space_kernel_call.
  rewrite weighted_gaussian_call_Ok by now apply augmented_not_empty.
  reflexivity.
Qed.

Lemma scale_space_call_value (D1 D2 : Diagram)
    (ka : option KernelApproximation) (b r : R) :
  persistence_scale_space_kernel_call D1 D2 ka b = Ok r ->
  r = persistence_scale_space_kernel D1 D2 ka b.
Proof.
  unfold persistence_scale_space_kernel_call. intros H.
  destruct (persistence_weighted_gaussian_kernel_call
              (D1 ++ swap_columns D1) (D2 ++ swap_columns D2) weight_pss
              ka b) as [K|e] eqn:E; [|discriminate].
  apply weighted_gaussian_call_value in E. subst K.
  injection H as <-. reflexivity.
Qed.

Lemma scale_space_call_sym (D1 D2 : Diagram)
    (ka : option KernelApproximation) (b : R) :
  persistence_scale_space_kernel_call D1 D2 ka b
  = persistence_scale_space_kernel_call D2 D1 ka b.
Proof.
  unfold persistence_scale_space_kernel_call.
  now rewrite weighted_gaussian_call_sym.
Qed.

(** ** The weighted Gaussian kernel *)

(** C2: with no kernel approximation, the call of the persistence weighted
    Gaussian kernel on the zero-length diagram and any diagram [D2] does
    not return [0]: for any weight function and any bandwidth it raises
    [ValueError], because line 39 hands the diagram without points to
    [pairwise_distances], which rejects it. *)
Theorem weighted_gaussian_call_empty_first :
  forall (D2 : Diagram) (weight : WeightFunction) (bandwidth : R),
    persistence_weighted_gaussian_kernel_call [] D2 weight None bandwidth
    = Raise ValueError.
Proof. reflexivity. Qed.

(** C3: with no kernel approximation and a positive bandwidth [b], the
    persistence weighted Gaussian kernel of [D1] and [D2] is
    [(1 / (sqrt(2 pi) b))] times the sum over all [i], [j] of
    [weight(D1[i]) * weight(D2[j]) * exp(-|D1[i] - D2[j]|^2 / (2 b^2))],
    where [|.|] is the Euclidean norm. *)
Theorem weighted_gaussian_exact_formula :
  forall (D1 D2 : Diagram) (weight : WeightFunction) (bandwidth : R),
    0 < bandwidth ->
    persistence_weighted_gaussian_kernel D1 D2 weight None bandwidth
    = weighted_gaussian_formula D1 D2 weight bandwidth.
Proof.
  intros D1 D2 w b _.
  rewrite exact_path_double_sum. unfold weighted_gaussian_formula.
  set (c := 1 / (sqrt (2 * PI) * b)).
  set (term := fun p q : Point =>
                 w p * w q * exp (- norm (psub p q) ^ 2 / (2 * b ^ 2))).
  transitivity
    (c * vsum (map (fun p => vsum (map (fun q => term p q) D2)) D1)).
  - rewrite <- vsum_map_scal. apply vsum_map_ext. intros p _.
    rewrite <- vsum_map_scal. apply vsum_map_ext. intros q _.
    unfold term. rewrite Rsqr_euclidean.
    replace (2 * b * b) with (2 * b ^ 2) by ring. ring.
  - f_equal.
    rewrite <- (big_sum_nth (fun p => vsum (map (fun q => term p q) D2))
                  D1 (0, 0)).
    unfold big_sum at 1. unfold big_sum at 2.
    apply vsum_map_ext. intros i _.
    symmetry.
    exact (big_sum_nth (fun q => term (nth i D1 (0, 0)) q) D2 (0, 0)).
Qed.

Lemma weighted_gaussian_exact_formula_witness :
  0 < 1
  /\ persistence_weighted_gaussian_kernel [(0, 1)] [(0, 1); (1, 3)]
       default_weight None 1
     = weighted_gaussian_formula [(0, 1)] [(0, 1); (1, 3)] default_weight 1.
Proof.
  split; [lra | apply weighted_gaussian_exact_formula; lra].
Defined.

(** C7: the persistence weighted Gaussian kernel and the persistence scale
    space kernel are symmetric in their two diagrams, with or without a
    kernel approximation (over the reals the equality is exact). *)
Theorem kernels_symmetric :
  forall (D1 D2 : Diagram) (weight : WeightFunction)
         (kernel_approx : option KernelApproximation) (bandwidth : R),
    persistence_weighted_gaussian_kernel D1 D2 weight kernel_approx bandwidth
    = persistence_weighted_gaussian_kernel D2 D1 weight kernel_approx bandwidth
    /\ persistence_scale_space_kernel D1 D2 kernel_approx bandwidth
       = persistence_scale_space_kernel D2 D1 kernel_approx bandwidth.
Proof.
  intros. split.
  - apply weighted_gaussian_sym.
  - apply scale_space_sym.
Qed.

(** ** The scale space kernel *)

Lemma swap_columns_mirror (D : Diagram) : swap_columns D = map mirror D.
Proof. reflexivity. Qed.

Lemma weight_pss_above (p : Point) : death p >= birth p -> weight_pss p = 1.
Proof.
  unfold weight_pss, death, birth. intros H.
  destruct (Rge_dec (snd p) (fst p)) as [_|n]; [reflexivity | contradiction].
Qed.

Lemma weight_pss_below (p : Point) : death p < birth p -> weight_pss p = -1.
Proof.
  unfold weight_pss, death, birth. intros H.
  destruct (Rge_dec (snd p) (fst p)) as [g|_]; [lra | reflexivity].
Qed.

(** C4: the persistence scale space kernel of [D1] and [D2] is [0.5] times
    the persistence weighted Gaussian kernel of the augmented diagrams (the
    points of the diagram in their order, followed by their mirror images
    in the same order), with the weight [+1] on the points with
    [death >= birth] and [-1] on the others; a point of the diagonal has
    weight [+1]. *)
Theorem scale_space_kernel_symmetrization :
  forall (D1 D2 : Diagram) (kernel_approx : option KernelApproximation)
         (bandwidth : R),
    persistence_scale_space_kernel D1 D2 kernel_approx bandwidth
    = 0.5 * persistence_weighted_gaussian_kernel (augmented D1) (augmented D2)
              weight_pss kernel_approx bandwidth
    /\ (forall (D : Diagram) (i : nat) (d : Point),
          (i < length D)%nat ->
          nth i (augmented D) d = nth i D d
          /\ nth (length D + i) (augmented D) d = mirror (nth i D d))
    /\ (forall D : Diagram, length (augmented D) = (2 * length D)%nat)
    /\ (forall p : Point, death p >= birth p -> weight_pss p = 1)
    /\ (forall p : Point, death p < birth p -> weight_pss p = -1)
    /\ (forall x : R, weight_pss (x, x) = 1).
Proof.
  intros D1 D2 ka b.
  split; [reflexivity|].
  split; [intros D i d Hi; unfold augmented; split|].
  - now rewrite app_nth1.
  - rewrite app_nth2_plus.
    rewrite (nth_indep _ d (mirror d)) by now rewrite length_map.
    apply map_nth.
  - repeat split.
    + intros D. unfold augmented. rewrite length_app, length_map. lia.
    + apply weight_pss_above.
    + apply weight_pss_below.
    + intros x. apply weight_pss_above. unfold death, birth. simpl. lra.
Qed.

(** ** Results *)

Lemma sequence_map_Ok {A B : Type} (f : A -> B) (l : list A) :
  sequence (map (fun x => Ok (f x)) l) = Ok (map f l).
Proof.
  induction l as [|x l IH]; simpl; [reflexivity|].
  now rewrite IH.
Qed.

Lemma sequence_map_Raise {A B : Type} (e : exn) (l : list A) :
  l <> [] -> sequence (map (fun _ => @Raise B e) l) = Raise e.
Proof. destruct l as [|x l]; [congruence | reflexivity]. Qed.

(** A list of computations that returns has run every one of them. *)
Lemma sequence_Ok_inv {A : Type} (l : list (result A)) (vs : list A) :
  sequence l = Ok vs -> l = map Ok vs.
Proof.
  revert vs. induction l as [|r l IH]; intros vs H; simpl in H.
  - injection H as <-. reflexivity.
  - destruct r as [a|e]; simpl in H; [|discriminate].
    destruct (sequence l) as [rest|e]; simpl in H; [|discriminate].
    injection H as <-. simpl. f_equal. now apply IH.
Qed.

(** ** Padding, stacking and reshaping *)

Lemma length_concat_uniform {A : Type} (k : nat) (rows : list (list A)) :
  Forall (fun r => length r = k) rows ->
  length (concat rows) = (length rows * k)%nat.
Proof.
  induction 1 as [|r rows Hr _ IH]; simpl; [reflexivity|].
  rewrite length_app, IH, Hr. reflexivity.
Qed.

Lemma concat_concat_map {A : Type} (ll : list (list (list A))) :
  concat (concat ll) = concat (map (@concat A) ll).
Proof.
  induction ll as [|l ll IH]; simpl; [reflexivity|].
  now rewrite concat_app, IH.
Qed.

(** Cutting the concatenation of rows of length [k] into rows of length
    [k] gives the rows back. *)
Lemma chunks_concat (k : nat) (rows : Matrix) :
  (0 < k)%nat ->
  Forall (fun r => length r = k) rows ->
  forall fuel, (length rows <= fuel)%nat ->
  chunks fuel k (concat rows) = rows.
Proof.
  intros Hk H.
  induction H as [|r rows Hr _ IH]; intros fuel Hfuel.
  - destruct fuel; reflexivity.
  - destruct fuel as [|fuel]; [simpl in Hfuel; lia|].
    simpl concat. simpl chunks.
    destruct (r ++ concat rows) as [|a l] eqn:E.
    + apply (f_equal (@length R)) in E.
      rewrite length_app in E. simpl in E. lia.
    + rewrite <- E, firstn_app, skipn_app, Hr, Nat.sub_diag.
      rewrite firstn_all2, skipn_all2 by lia. simpl.
      rewrite app_nil_r, IH by (simpl in Hfuel; lia).
      reflexivity.
Qed.

Lemma pad_diagram_length (L : nat) (D : Diagram) :
  (length D <= L)%nat -> length (pad_diagram L D) = L.
Proof.
  intros H. unfold pad_diagram.
  rewrite length_app, length_map, repeat_length. lia.
Qed.

Lemma pad_diagram_rows (L : nat) (D : Diagram) :
  Forall (fun r => length r = 3%nat) (pad_diagram L D).
Proof.
  unfold pad_diagram. apply Forall_app. split.
  - apply Forall_forall. intros r Hr.
    apply in_map_iff in Hr as [p [<- _]]. reflexivity.
  - apply Forall_forall. intros r Hr.
    apply repeat_spec in Hr. now subst r.
Qed.

Lemma flatten_padded_length (L : nat) (D : Diagram) :
  (length D <= L)%nat -> length (flatten_padded L D) = (L * 3)%nat.
Proof.
  intros H. unfold flatten_padded.
  rewrite (length_concat_uniform _ _ (pad_diagram_rows L D)).
  now rewrite pad_diagram_length.
Qed.

(** Removing the padding of a padded, flattened diagram gives the diagram
    back. *)
Lemma unpad_flatten_padded (L : nat) (D : Diagram) :
  (length D <= L)%nat -> unpad (flatten_padded L D) = D.
Proof.
  intros H. unfold unpad.
  rewrite flatten_padded_length by assumption.
  unfold flatten_padded.
  rewrite chunks_concat;
    [| lia | apply pad_diagram_rows | rewrite pad_diagram_length; lia].
  unfold pad_diagram. rewrite flat_map_app.
  replace (flat_map _ (repeat [0; 0; 0] (L - length D))) with (@nil Point).
  - rewrite app_nil_r. clear H.
    induction D as [|[b d] D IH]; simpl; [reflexivity|].
    destruct (Req_dec_T 1 1) as [_|n]; [|congruence].
    simpl. now rewrite IH.
  - induction (L - length D)%nat as [|n IH]; simpl; [reflexivity|].
    destruct (Req_dec_T 0 1) as [e|_]; [lra|]. exact IH.
Qed.

Lemma max_pts_ge (X : list Diagram) (D : Diagram) :
  In D X -> (length D <= max_pts X)%nat.
Proof.
  induction X as [|D' X IH]; simpl; [tauto|].
  intros [->|H]; [lia|]. specialize (IH H). lia.
Qed.

Lemma max_pts_app_l (X Y : list Diagram) :
  Forall (fun D => (length D <= max_pts (X ++ Y))%nat) X.
Proof.
  apply Forall_forall. intros D H. apply max_pts_ge, in_or_app. now left.
Qed.

Lemma max_pts_app_r (X Y : list Diagram) :
  Forall (fun D => (length D <= max_pts (X ++ Y))%nat) Y.
Proof.
  apply Forall_forall. intros D H. apply max_pts_ge, in_or_app. now right.
Qed.

(** Stacking the padded diagrams of a non-empty batch and reshaping to
    rows of [3 L] numbers gives one flattened padded diagram per row. *)
Lemma vstack_reshape (L : nat) (X : list Diagram) :
  X <> [] -> (0 < L)%nat ->
  Forall (fun D => (length D <= L)%nat) X ->
  (stacked <- np_vstack (map (pad_diagram L) X) ;;
   np_reshape stacked (L * 3))
  = Ok (map (flatten_padded L) X).
Proof.
  intros HX HL Hle.
  destruct X as [|D X]; [congruence|].
  set (Ds := D :: X) in *. clearbody Ds.
  assert (Hstack : np_vstack (map (pad_diagram L) Ds)
                   = Ok (concat (map (pad_diagram L) Ds))).
  { destruct Ds; [congruence | reflexivity]. }
  rewrite Hstack. simpl bind. unfold np_reshape.
  rewrite concat_concat_map, map_map.
  fold (flatten_padded L).
  change (fun x => concat (pad_diagram L x)) with (flatten_padded L).
  assert (Hrows : Forall (fun r => length r = (L * 3)%nat)
                    (map (flatten_padded L) Ds)).
  { apply Forall_forall. intros r Hr.
    apply in_map_iff in Hr as [D' [<- HD']].
    apply flatten_padded_length.
    rewrite Forall_forall in Hle. now apply Hle. }
  rewrite (length_concat_uniform _ _ Hrows), length_map.
  destruct (L * 3 =? 0)%nat eqn:E0; [apply Nat.eqb_eq in E0; lia|].
  rewrite Nat.Div0.mod_mul, Nat.eqb_refl.
  f_equal. apply chunks_concat; [lia | exact Hrows |].
  rewrite length_map. nia.
Qed.

Lemma bind_Ok_inv {A B : Type} (m : result A) (f : A -> result B) (b : B) :
  bind m f = Ok b -> exists a, m = Ok a /\ f a = Ok b.
Proof.
  destruct m as [a|e]; simpl; [|discriminate].
  intros H. now exists a.
Qed.

Lemma bind_assoc {A B C : Type} (m : result A) (f : A -> result B)
    (g : B -> result C) :
  bind (bind m f) g = bind m (fun a => bind (f a) g).
Proof. destruct m; reflexivity. Qed.

Lemma len_first_padding (X : list Diagram) :
  X <> [] -> len_first (Padding_fit_transform X) = Ok (max_pts X).
Proof.
  destruct X as [|D X]; [congruence|]. intros _.
  unfold Padding_fit_transform. simpl map. simpl len_first. f_equal.
  apply pad_diagram_length, max_pts_ge. now left.
Qed.

Lemma firstn_map_app {A B : Type} (f : A -> B) (X Y : list A) :
  firstn (length X) (map f (X ++ Y)) = map f X.
Proof.
  rewrite map_app, firstn_app, length_map, Nat.sub_diag.
  rewrite firstn_all2 by (rewrite length_map; lia).
  simpl. apply app_nil_r.
Qed.

Lemma skipn_map_app {A B : Type} (f : A -> B) (X Y : list A) :
  skipn (length X) (map f (X ++ Y)) = map f Y.
Proof.
  rewrite map_app, skipn_app, length_map, Nat.sub_diag.
  rewrite skipn_all2 by (rewrite length_map; lia).
  reflexivity.
Qed.

(** *** The padded representation of a batch *)

Lemma padded_representation_self (X : list Diagram) :
  X <> [] -> (0 < max_pts X)%nat ->
  padded_representation X None
  = Ok (map (flatten_padded (max_pts X)) X, None).
Proof.
  intros HX HL. unfold padded_representation.
  rewrite len_first_padding by assumption. simpl bind.
  unfold Padding_fit_transform.
  rewrite <- bind_assoc, vstack_reshape; try assumption.
  - reflexivity.
  - apply Forall_forall. intros D HD. now apply max_pts_ge.
Qed.

Lemma padded_representation_pair (X Y : list Diagram) :
  X <> [] -> Y <> [] -> (0 < max_pts (X ++ Y))%nat ->
  padded_representation X (Some Y)
  = Ok (map (flatten_padded (max_pts (X ++ Y))) X,
        Some (map (flatten_padded (max_pts (X ++ Y))) Y)).
Proof.
  intros HX HY HL. unfold padded_representation.
  rewrite len_first_padding by (destruct X; simpl; congruence).
  simpl bind. unfold Padding_fit_transform.
  rewrite firstn_map_app, skipn_map_app.
  rewrite <- bind_assoc, vstack_reshape;
    [| assumption | assumption | apply max_pts_app_l].
  simpl bind.
  rewrite <- bind_assoc, vstack_reshape;
    [| assumption | assumption | apply max_pts_app_r].
  reflexivity.
Qed.

(** The padded representation exists only for a non-empty batch holding at
    least one point. *)
Lemma padded_representation_self_inv (X : list Diagram)
    (padded : list (list R) * option (list (list R))) :
  padded_representation X None = Ok padded ->
  X <> [] /\ (0 < max_pts X)%nat
  /\ padded = (map (flatten_padded (max_pts X)) X, None).
Proof.
  intros H.
  destruct X as [|D X]; [discriminate|].
  assert (HX : D :: X <> []) by congruence.
  destruct (Nat.eq_dec (max_pts (D :: X)) 0) as [E|E].
  - exfalso. unfold padded_representation in H.
    rewrite len_first_padding in H by assumption.
    rewrite E in H. simpl in H. discriminate.
  - assert (HL : (0 < max_pts (D :: X))%nat) by lia.
    rewrite padded_representation_self in H by assumption.
    injection H as <-. auto.
Qed.

Lemma padded_representation_pair_inv (X Y : list Diagram)
    (padded : list (list R) * option (list (list R))) :
  padded_representation X (Some Y) = Ok padded ->
  X <> [] /\ Y <> [] /\ (0 < max_pts (X ++ Y))%nat
  /\ padded = (map (flatten_padded (max_pts (X ++ Y))) X,
               Some (map (flatten_padded (max_pts (X ++ Y))) Y)).
Proof.
  intros H.
  destruct X as [|D X].
  { exfalso. unfold padded_representation in H.
    destruct (len_first (Padding_fit_transform ([] ++ Y))); discriminate. }
  assert (HX : D :: X <> []) by congruence.
  set (X0 := D :: X) in *. clearbody X0. clear D X.
  assert (HXY : forall Y', X0 ++ Y' <> []).
  { intros Y' E. apply app_eq_nil in E. tauto. }
  destruct (Nat.eq_dec (max_pts (X0 ++ Y)) 0) as [E|E].
  { exfalso. unfold padded_representation in H.
    rewrite len_first_padding in H by apply HXY.
    rewrite E in H. simpl in H.
    destruct (np_vstack _) in H; discriminate. }
  assert (HL : (0 < max_pts (X0 ++ Y))%nat) by lia.
  destruct Y as [|D' Y].
  { exfalso. unfold padded_representation in H.
    rewrite len_first_padding in H by apply HXY.
    simpl bind in H. unfold Padding_fit_transform in H.
    rewrite firstn_map_app, skipn_map_app in H.
    rewrite <- bind_assoc, vstack_reshape in H;
      [| assumption | assumption | apply max_pts_app_l].
    simpl in H. discriminate. }
  rewrite padded_representation_pair in H by (assumption || congruence).
  injection H as <-. repeat split; congruence || assumption.
Qed.

(** ** Matrices of kernel values *)

Lemma pairwise_kernels_Ok (XX : list (list R)) (YY : option (list (list R)))
    (f : list R -> list R -> R) :
  pairwise_kernels XX YY (fun x y => Ok (f x y))
  = Ok (map (fun x => map (f x) (match YY with Some YY => YY | None => XX end))
            XX).
Proof.
  unfold pairwise_kernels.
  rewrite (map_ext _ (fun x => Ok (map (f x)
             (match YY with Some YY => YY | None => XX end)))).
  - apply sequence_map_Ok.
  - intros x. apply sequence_map_Ok.
Qed.

Lemma pairwise_kernels_ext (XX : list (list R)) (YY : option (list (list R)))
    (f g : list R -> list R -> result R) :
  (forall x y, f x y = g x y) ->
  pairwise_kernels XX YY f = pairwise_kernels XX YY g.
Proof.
  intros H. unfold pairwise_kernels. f_equal.
  apply map_ext. intros x. f_equal. apply map_ext. intros y. apply H.
Qed.

Lemma pairwise_kernels_None (XX : list (list R))
    (f : list R -> list R -> result R) :
  pairwise_kernels XX None f = pairwise_kernels XX (Some XX) f.
Proof. reflexivity. Qed.

Lemma pairwise_kernels_ext_in (XX : list (list R))
    (YY : option (list (list R))) (f g : list R -> list R -> result R) :
  (forall x y,
      In x XX -> In y (match YY with Some YY => YY | None => XX end) ->
      f x y = g x y) ->
  pairwise_kernels XX YY f = pairwise_kernels XX YY g.
Proof.
  intros H. unfold pairwise_kernels. f_equal.
  apply map_ext_in. intros x Hx. f_equal.
  apply map_ext_in. intros y Hy. now apply H.
Qed.

(** A returned matrix means that every call of the metric returned. *)
Lemma pairwise_kernels_Ok_inv (XX : list (list R))
    (YY : option (list (list R))) (f : list R -> list R -> result R)
    (M : list (list R)) :
  pairwise_kernels XX YY f = Ok M ->
  forall x y,
    In x XX -> In y (match YY with Some YY => YY | None => XX end) ->
    exists r, f x y = Ok r.
Proof.
  unfold pairwise_kernels. intros H x y Hx Hy.
  apply sequence_Ok_inv in H.
  assert (Hrow : In (sequence
                       (map (fun y => f x y)
                          (match YY with Some YY => YY | None => XX end)))
                    (map Ok M)).
  { rewrite <- H.
    apply (in_map (fun x => sequence
                              (map (fun y => f x y)
                                 (match YY with
                                  | Some YY => YY
                                  | None => XX
                                  end)))).
    exact Hx. }
  apply in_map_iff in Hrow as [row [Hrow _]].
  symmetry in Hrow. apply sequence_Ok_inv in Hrow.
  assert (Hr : In (f x y) (map Ok row)).
  { rewrite <- Hrow. apply (in_map (fun y => f x y)). exact Hy. }
  apply in_map_iff in Hr as [r [Hr _]]. now exists r.
Qed.

Lemma pairwise_kernels_Raise (XX : list (list R))
    (YY : option (list (list R))) (e : exn) :
  XX <> [] -> (forall YY', YY = Some YY' -> YY' <> []) ->
  pairwise_kernels XX YY (fun _ _ => Raise e) = Raise e.
Proof.
  intros HX HY. unfold pairwise_kernels.
  assert (H : sequence (map (fun _ : list R => @Raise R e)
                          (match YY with Some YY => YY | None => XX end))
              = Raise e).
  { apply sequence_map_Raise. destruct YY as [YY|]; auto. }
  destruct XX as [|x XX]; [congruence|].
  simpl. now rewrite H.
Qed.

Lemma gram_shape (k : Diagram -> Diagram -> R) (A B : list Diagram) :
  has_shape (length A) (length B) (gram k A B).
Proof.
  unfold has_shape, gram. split.
  - apply length_map.
  - apply Forall_forall. intros row H.
    apply in_map_iff in H as [a [<- _]]. apply length_map.
Qed.

Lemma gram_entry (k : Diagram -> Diagram -> R) (A B : list Diagram)
    (i j : nat) :
  (i < length A)%nat -> (j < length B)%nat ->
  entry (gram k A B) i j = k (nth i A []) (nth j B []).
Proof.
  intros Hi Hj. unfold entry, gram.
  rewrite (nth_indep _ [] (map (fun b => k [] b) B))
    by now rewrite length_map.
  rewrite (map_nth (fun a => map (fun b => k a b) B) A []).
  rewrite (nth_indep _ 0 (k (nth i A []) [])) by now rewrite length_map.
  apply (map_nth (fun b => k (nth i A []) b)).
Qed.

(** The matrix of a kernel on the padded rows of two batches is the matrix
    of the kernel on the diagrams themselves. *)
Lemma gram_unpad (L : nat) (k : Diagram -> Diagram -> R)
    (X Y : list Diagram) :
  Forall (fun D => (length D <= L)%nat) X ->
  Forall (fun D => (length D <= L)%nat) Y ->
  map (fun x => map (fun y => k (unpad x) (unpad y))
                    (map (flatten_padded L) Y))
      (map (flatten_padded L) X)
  = gram k X Y.
Proof.
  intros HX HY. unfold gram.
  rewrite Forall_forall in HX, HY.
  rewrite map_map. apply map_ext_in. intros a Ha.
  rewrite map_map. apply map_ext_in. intros b Hb.
  now rewrite !unpad_flatten_padded by auto.
Qed.

Lemma max_pts_all (X : list Diagram) :
  Forall (fun D => (length D <= max_pts X)%nat) X.
Proof. apply Forall_forall. intros D H. now apply max_pts_ge. Qed.

Lemma exp_neg_div_shape (p q : nat) (Dist : list (list R)) (b : R) :
  has_shape p q Dist -> has_shape p q (exp_neg_div Dist b).
Proof.
  unfold has_shape, exp_neg_div. intros [Hp Hq]. split.
  - now rewrite length_map.
  - rewrite Forall_forall in *. intros row H.
    apply in_map_iff in H as [r [<- Hr]]. rewrite length_map. auto.
Qed.

Lemma exp_neg_div_entry (p q : nat) (Dist : list (list R)) (b : R)
    (i j : nat) :
  has_shape p q Dist -> (i < p)%nat -> (j < q)%nat ->
  entry (exp_neg_div Dist b) i j = exp ((- entry Dist i j) / b).
Proof.
  unfold has_shape, exp_neg_div, entry. intros [Hp Hq] Hi Hj.
  set (f := fun d => exp ((- d) / b)).
  assert (Hrow : length (nth i Dist []) = q).
  { rewrite Forall_forall in Hq. apply Hq, nth_In. lia. }
  rewrite (nth_indep _ [] (map f [])) by (rewrite length_map; lia).
  rewrite (map_nth (map f) Dist []).
  rewrite (nth_indep _ 0 (f 0)) by (rewrite length_map; lia).
  apply (map_nth f).
Qed.

(** *** The exponential of a non-positive number *)

Lemma exp_neg_div_unit_interval (d b : R) :
  0 <= d -> 0 < b ->
  0 < exp ((- d) / b) <= 1 /\ (exp ((- d) / b) = 1 <-> d = 0).
Proof.
  intros Hd Hb.
  assert (Hle : (- d) / b <= 0).
  { pose proof (Rinv_0_lt_compat b Hb) as Hinv. unfold Rdiv. nra. }
  split; [split|split].
  - apply exp_pos.
  - destruct Hle as [Hlt|Heq].
    + left. rewrite <- exp_0. now apply exp_increasing.
    + rewrite Heq, exp_0. lra.
  - intros H. rewrite <- exp_0 in H. apply exp_inv in H.
    pose proof (Rinv_0_lt_compat b Hb) as Hinv. unfold Rdiv in H. nra.
  - intros ->. unfold Rdiv. rewrite Ropp_0, Rmult_0_l. apply exp_0.
Qed.

(** ** The branches of the dispatcher *)

Section Branches.
Variable distances : DiagramDistances.
Variables (X : list Diagram) (Y : option (list Diagram)) (kwargs : Kwargs).

Lemma dispatch_sliced_wasserstein :
  pairwise_persistence_diagram_kernels distances X Y
    (MetricName "sliced_wasserstein") kwargs
  = (padded <- padded_representation X Y ;;
     num_directions <- getitem "num_directions" (kw_num_directions kwargs) ;;
     Dist <- distances X Y "sliced_wasserstein"
               {| kw_num_directions := Some num_directions;
                  kw_bandwidth := None; kw_bandwidth_fisher := None;
                  kw_kernel_approx := None; kw_weight := None |} ;;
     b <- getitem "bandwidth" (kw_bandwidth kwargs) ;;
     Ok (exp_neg_div Dist b)).
Proof. reflexivity. Qed.

Lemma dispatch_persistence_fisher :
  pairwise_persistence_diagram_kernels distances X Y
    (MetricName "persistence_fisher") kwargs
  = (padded <- padded_representation X Y ;;
     kernel_approx <- getitem "kernel_approx" (kw_kernel_approx kwargs) ;;
     bandwidth <- getitem "bandwidth" (kw_bandwidth kwargs) ;;
     Dist <- distances X Y "persistence_fisher"
               {| kw_num_directions := None;
                  kw_bandwidth := Some bandwidth;
                  kw_bandwidth_fisher := None;
                  kw_kernel_approx := Some kernel_approx;
                  kw_weight := None |} ;;
     b <- getitem "bandwidth_fisher" (kw_bandwidth_fisher kwargs) ;;
     Ok (exp_neg_div Dist b)).
Proof. reflexivity. Qed.

Lemma dispatch_persistence_scale_space :
  pairwise_persistence_diagram_kernels distances X Y
    (MetricName "persistence_scale_space") kwargs
  = (padded <- padded_representation X Y ;;
     pairwise_kernels (fst padded) (snd padded)
       (sklearn_wrapper call_persistence_scale_space_kernel kwargs)).
Proof. reflexivity. Qed.

Lemma dispatch_persistence_weighted_gaussian :
  pairwise_persistence_diagram_kernels distances X Y
    (MetricName "persistence_weighted_gaussian") kwargs
  = (padded <- padded_representation X Y ;;
     pairwise_kernels (fst padded) (snd padded)
       (sklearn_wrapper call_persistence_weighted_gaussian_kernel kwargs)).
Proof. reflexivity. Qed.

End Branches.

(** Whenever one of the two kernel functions, called with keyword
    arguments, returns, it returns the value of the kernel at the keyword
    arguments given and the defaults for the others. *)
Lemma call_scale_space_value (kwargs : Kwargs) (D1 D2 : Diagram) (r : R) :
  call_persistence_scale_space_kernel D1 D2 kwargs = Ok r ->
  r = persistence_scale_space_kernel D1 D2
        (kernel_approx_or_default kwargs) (bandwidth_or_default kwargs).
Proof.
  unfold call_persistence_scale_space_kernel.
  destruct (is_present (kw_num_directions kwargs)
            || is_present (kw_bandwidth_fisher kwargs)
            || is_present (kw_weight kwargs)); [discriminate|].
  apply scale_space_call_value.
Qed.

Lemma call_weighted_gaussian_value (kwargs : Kwargs) (D1 D2 : Diagram)
    (r : R) :
  call_persistence_weighted_gaussian_kernel D1 D2 kwargs = Ok r ->
  r = persistence_weighted_gaussian_kernel D1 D2
        (weight_or_default kwargs) (kernel_approx_or_default kwargs)
        (bandwidth_or_default kwargs).
Proof.
  unfold call_persistence_weighted_gaussian_kernel.
  destruct (is_present (kw_num_directions kwargs)
            || is_present (kw_bandwidth_fisher kwargs)); [discriminate|].
  apply weighted_gaussian_call_value.
Qed.

Lemma call_scale_space_sym (kwargs : Kwargs) (D1 D2 : Diagram) :
  call_persistence_scale_space_kernel D1 D2 kwargs
  = call_persistence_scale_space_kernel D2 D1 kwargs.
Proof.
  unfold call_persistence_scale_space_kernel.
  now rewrite scale_space_call_sym.
Qed.

Lemma call_weighted_gaussian_sym (kwargs : Kwargs) (D1 D2 : Diagram) :
  call_persistence_weighted_gaussian_kernel D1 D2 kwargs
  = call_persistence_weighted_gaussian_kernel D2 D1 kwargs.
Proof.
  unfold call_persistence_weighted_gaussian_kernel.
  now rewrite weighted_gaussian_call_sym.
Qed.

Lemma call_weighted_gaussian_accepts (kwargs : Kwargs) :
  kw_num_directions kwargs = None -> kw_bandwidth_fisher kwargs = None ->
  forall D1 D2,
    D1 <> [] -> D2 <> [] ->
    call_persistence_weighted_gaussian_kernel D1 D2 kwargs
    = Ok (persistence_weighted_gaussian_kernel D1 D2
            (weight_or_default kwargs) (kernel_approx_or_default kwargs)
            (bandwidth_or_default kwargs)).
Proof.
  intros H1 H2 D1 D2 HD1 HD2.
  unfold call_persistence_weighted_gaussian_kernel.
  rewrite H1, H2. simpl. now apply weighted_gaussian_call_Ok.
Qed.

Lemma call_scale_space_accepts (kwargs : Kwargs) :
  kw_num_directions kwargs = None -> kw_bandwidth_fisher kwargs = None ->
  kw_weight kwargs = None ->
  forall D1 D2,
    D1 <> [] -> D2 <> [] ->
    call_persistence_scale_space_kernel D1 D2 kwargs
    = Ok (persistence_scale_space_kernel D1 D2
            (kernel_approx_or_default kwargs) (bandwidth_or_default kwargs)).
Proof.
  intros H1 H2 H3 D1 D2 HD1 HD2.
  unfold call_persistence_scale_space_kernel.
  rewrite H1, H2, H3. simpl. now apply scale_space_call_Ok.
Qed.

Lemma Forall_not_empty_In (X : list Diagram) (D : Diagram) :
  Forall (fun D => D <> []) X -> In D X -> D <> [].
Proof. intros H. rewrite Forall_forall in H. apply H. Qed.

(** The matrix built from a kernel that returns on every pair of members
    of two batches, on their padded representation. *)
Lemma pairwise_kernels_wrapper_pair
    (call : Diagram -> Diagram -> Kwargs -> result R)
    (k : Diagram -> Diagram -> R) (kwargs : Kwargs) (L : nat)
    (A B : list Diagram) :
  Forall (fun D => (length D <= L)%nat) A ->
  Forall (fun D => (length D <= L)%nat) B ->
  (forall D1 D2, In D1 A -> In D2 B -> call D1 D2 kwargs = Ok (k D1 D2)) ->
  pairwise_kernels (map (flatten_padded L) A)
    (Some (map (flatten_padded L) B)) (sklearn_wrapper call kwargs)
  = Ok (gram k A B).
Proof.
  intros HA HB Hcall.
  rewrite (pairwise_kernels_ext_in _ _ _
             (fun x y => Ok (k (unpad x) (unpad y)))).
  - rewrite pairwise_kernels_Ok. f_equal. now apply gram_unpad.
  - intros x y Hx Hy. unfold sklearn_wrapper.
    apply in_map_iff in Hx as [D1 [<- HD1]].
    apply in_map_iff in Hy as [D2 [<- HD2]].
    rewrite Forall_forall in HA, HB.
    rewrite !unpad_flatten_padded by auto.
    now apply Hcall.
Qed.

(** What a returned matrix tells about the calls and about its entries. *)
Lemma pairwise_kernels_wrapper_pair_inv
    (call : Diagram -> Diagram -> Kwargs -> result R)
    (k : Diagram -> Diagram -> R) (kwargs : Kwargs) (L : nat)
    (A B : list Diagram) (M : list (list R)) :
  Forall (fun D => (length D <= L)%nat) A ->
  Forall (fun D => (length D <= L)%nat) B ->
  (forall D1 D2 r, call D1 D2 kwargs = Ok r -> r = k D1 D2) ->
  pairwise_kernels (map (flatten_padded L) A)
    (Some (map (flatten_padded L) B)) (sklearn_wrapper call kwargs)
  = Ok M ->
  (forall D1 D2, In D1 A -> In D2 B -> call D1 D2 kwargs = Ok (k D1 D2))
  /\ M = gram k A B.
Proof.
  intros HA HB Hvalue H.
  assert (Hcall : forall D1 D2, In D1 A -> In D2 B ->
                                call D1 D2 kwargs = Ok (k D1 D2)).
  { intros D1 D2 HD1 HD2.
    destruct (pairwise_kernels_Ok_inv _ _ _ _ H
                (flatten_padded L D1) (flatten_padded L D2))
      as [r Hr]; [now apply in_map | now apply in_map |].
    unfold sklearn_wrapper in Hr.
    rewrite Forall_forall in HA, HB.
    rewrite !unpad_flatten_padded in Hr by auto.
    rewrite Hr. f_equal. now apply Hvalue. }
  split; [exact Hcall|].
  rewrite (pairwise_kernels_wrapper_pair call k kwargs L A B HA HB Hcall)
    in H.
  now injection H.
Qed.

Lemma is_kernel_matrix_gram (k : Diagram -> Diagram -> R)
    (A B : list Diagram) :
  is_kernel_matrix A B (fun i j => k (nth i A []) (nth j B [])) (gram k A B).
Proof.
  split; [apply gram_shape|].
  intros i j Hi Hj. now apply gram_entry.
Qed.

Lemma is_kernel_matrix_exp (A B : list Diagram) (Dist : list (list R))
    (b : R) :
  has_shape (length A) (length B) Dist ->
  is_kernel_matrix A B (fun i j => exp ((- entry Dist i j) / b))
    (exp_neg_div Dist b).
Proof.
  intros H. split; [now apply exp_neg_div_shape|].
  intros i j Hi Hj. now apply (exp_neg_div_entry _ _ _ b i j H).
Qed.

Lemma zero_distances_shape (A B : list Diagram) (name : string)
    (kw : Kwargs) :
  exists Dist, zero_distances A (Some B) name kw = Ok Dist
               /\ has_shape (length A) (length B) Dist.
Proof.
  eexists. split; [reflexivity|]. split.
  - apply length_map.
  - apply Forall_forall. intros row H.
    apply in_map_iff in H as [a [<- _]]. apply length_map.
Qed.

Lemma max_pts_app (X Y : list Diagram) :
  max_pts (X ++ Y) = Nat.max (max_pts X) (max_pts Y).
Proof.
  induction X as [|D X IH]; simpl; [reflexivity|].
  rewrite IH. lia.
Qed.

Lemma max_pts_pos (X : list Diagram) :
  X <> [] -> Forall (fun D => D <> []) X -> (0 < max_pts X)%nat.
Proof.
  intros HX H. destruct X as [|D X]; [congruence|].
  inversion H as [|D' X' HD _]; subst.
  destruct D as [|p D]; [congruence|].
  change (max_pts ((p :: D) :: X))
    with (Nat.max (S (length D)) (max_pts X)).
  lia.
Qed.

(** ** The kernel matrix of two collections *)

Section KernelMatrix.
Variable distances : DiagramDistances.
Variables A B : list Diagram.
Hypothesis A_not_empty : A <> [].
Hypothesis B_not_empty : B <> [].
Hypothesis some_point : (0 < max_pts (A ++ B))%nat.

Lemma point_kernel_matrix (metric : Metric)
    (call : Diagram -> Diagram -> Kwargs -> result R)
    (k : Diagram -> Diagram -> R) (kwargs : Kwargs) :
  pairwise_persistence_diagram_kernels distances A (Some B) metric kwargs
  = (padded <- padded_representation A (Some B) ;;
     pairwise_kernels (fst padded) (snd padded)
       (sklearn_wrapper call kwargs)) ->
  (forall D1 D2, In D1 A -> In D2 B -> call D1 D2 kwargs = Ok (k D1 D2)) ->
  exists M,
    pairwise_persistence_diagram_kernels distances A (Some B) metric kwargs
    = Ok M
    /\ is_kernel_matrix A B (fun i j => k (nth i A []) (nth j B [])) M.
Proof.
  intros Hbranch Hcall. exists (gram k A B). split.
  - rewrite Hbranch.
    rewrite padded_representation_pair by assumption. simpl bind.
    apply pairwise_kernels_wrapper_pair;
      [apply max_pts_app_l | apply max_pts_app_r | exact Hcall].
  - apply is_kernel_matrix_gram.
Qed.

Hypothesis distances_shape :
  forall name kw, exists Dist,
    distances A (Some B) name kw = Ok Dist
    /\ has_shape (length A) (length B) Dist.

Lemma distance_kernel_matrix (name : string) (kw : Kwargs) (b : R) :
  exists Dist,
    distances A (Some B) name kw = Ok Dist
    /\ (padded <- padded_representation A (Some B) ;;
        Dist <- distances A (Some B) name kw ;;
        Ok (exp_neg_div Dist b)) = Ok (exp_neg_div Dist b)
    /\ is_kernel_matrix A B (fun i j => exp ((- entry Dist i j) / b))
         (exp_neg_div Dist b).
Proof.
  destruct (distances_shape name kw) as [Dist [HDist Hshape]].
  exists Dist. split; [assumption|]. split.
  - rewrite padded_representation_pair by assumption. simpl bind.
    now rewrite HDist.
  - now apply is_kernel_matrix_exp.
Qed.

End KernelMatrix.

(** C5 (amended): for non-empty collections [A] and [B] of diagrams that
    all have at least one point, parameters that the selected branch
    accepts, a bandwidth other than [0], and a distance computation that
    returns a matrix of shape [(length A, length B)], the dispatcher
    returns a matrix of shape [(length A, length B)] whose entry [(i, j)]
    is the kernel value of diagram [i] of [A] and diagram [j] of [B].  For
    ["sliced_wasserstein"] the entry is the exponential of minus the
    distance [(i, j)], computed with [num_directions], over [bandwidth];
    for ["persistence_fisher"] it is the exponential of minus the distance
    [(i, j)], computed with [kernel_approx] and the value of [bandwidth],
    over the value of [bandwidth_fisher].  Under the same conditions
    [transform] after [fit] returns a matrix with one row per query
    diagram and one column per reference diagram, for each of the four
    estimators. *)
Theorem kernel_matrix_of_non_empty_collections :
  forall (distances : DiagramDistances) (A B : list Diagram),
    A <> [] -> B <> [] ->
    Forall (fun D => D <> []) A -> Forall (fun D => D <> []) B ->
    (forall name kw, exists Dist,
        distances A (Some B) name kw = Ok Dist
        /\ has_shape (length A) (length B) Dist) ->
    (forall kwargs,
        kw_num_directions kwargs = None -> kw_bandwidth_fisher kwargs = None ->
        bandwidth_or_default kwargs <> 0 ->
        exists M,
          pairwise_persistence_diagram_kernels distances A (Some B)
            (MetricName "persistence_weighted_gaussian") kwargs = Ok M
          /\ is_kernel_matrix A B
               (fun i j => persistence_weighted_gaussian_kernel
                             (nth i A []) (nth j B [])
                             (weight_or_default kwargs)
                             (kernel_approx_or_default kwargs)
                             (bandwidth_or_default kwargs)) M)
    /\ (forall kwargs,
          kw_num_directions kwargs = None ->
          kw_bandwidth_fisher kwargs = None -> kw_weight kwargs = None ->
          bandwidth_or_default kwargs <> 0 ->
          exists M,
            pairwise_persistence_diagram_kernels distances A (Some B)
              (MetricName "persistence_scale_space") kwargs = Ok M
            /\ is_kernel_matrix A B
                 (fun i j => persistence_scale_space_kernel
                               (nth i A []) (nth j B [])
                               (kernel_approx_or_default kwargs)
                               (bandwidth_or_default kwargs)) M)
    /\ (forall f k kwargs,
          (forall D1 D2, In D1 A -> In D2 B ->
                         f D1 D2 kwargs = Ok (k D1 D2)) ->
          exists M,
            pairwise_persistence_diagram_kernels distances A (Some B)
              (MetricCallable f) kwargs = Ok M
            /\ is_kernel_matrix A B
                 (fun i j => k (nth i A []) (nth j B [])) M)
    /\ (forall kwargs num_directions b,
          kw_num_directions kwargs = Some num_directions ->
          kw_bandwidth kwargs = Some b -> b <> 0 ->
          exists Dist M,
            distances A (Some B) "sliced_wasserstein"
              {| kw_num_directions := Some num_directions;
                 kw_bandwidth := None; kw_bandwidth_fisher := None;
                 kw_kernel_approx := None; kw_weight := None |} = Ok Dist
            /\ pairwise_persistence_diagram_kernels distances A (Some B)
                 (MetricName "sliced_wasserstein") kwargs = Ok M
            /\ is_kernel_matrix A B
                 (fun i j => exp ((- entry Dist i j) / b)) M)
    /\ (forall kwargs kernel_approx b1 b2,
          kw_kernel_approx kwargs = Some kernel_approx ->
          kw_bandwidth kwargs = Some b1 ->
          kw_bandwidth_fisher kwargs = Some b2 -> b2 <> 0 ->
          exists Dist M,
            distances A (Some B) "persistence_fisher"
              {| kw_num_directions := None;
                 kw_bandwidth := Some b1; kw_bandwidth_fisher := None;
                 kw_kernel_approx := Some kernel_approx;
                 kw_weight := None |} = Ok Dist
            /\ pairwise_persistence_diagram_kernels distances A (Some B)
                 (MetricName "persistence_fisher") kwargs = Ok M
            /\ is_kernel_matrix A B
                 (fun i j => exp ((- entry Dist i j) / b2)) M)
    /\ (forall self, exists M,
          SlicedWassersteinKernel.transform distances
            (SlicedWassersteinKernel.fit self B) A = Ok M
          /\ has_shape (length A) (length B) M)
    /\ (forall self, exists M,
          PersistenceWeightedGaussianKernel.transform distances
            (PersistenceWeightedGaussianKernel.fit self B) A = Ok M
          /\ has_shape (length A) (length B) M)
    /\ (forall self, exists M,
          PersistenceScaleSpaceKernel.transform distances
            (PersistenceScaleSpaceKernel.fit self B) A = Ok M
          /\ has_shape (length A) (length B) M)
    /\ (forall self, exists M,
          PersistenceFisherKernel.transform distances
            (PersistenceFisherKernel.fit self B) A = Ok M
          /\ has_shape (length A) (length B) M).
Proof.
  intros distances A B HA HB HneA HneB Hdist.
  assert (HL : (0 < max_pts (A ++ B))%nat).
  { rewrite max_pts_app. pose proof (max_pts_pos A HA HneA). lia. }
  assert (Hwg : forall kwargs,
             kw_num_directions kwargs = None ->
             kw_bandwidth_fisher kwargs = None ->
             exists M,
               pairwise_persistence_diagram_kernels distances A (Some B)
                 (MetricName "persistence_weighted_gaussian") kwargs = Ok M
               /\ is_kernel_matrix A B
                    (fun i j => persistence_weighted_gaussian_kernel
                                  (nth i A []) (nth j B [])
                                  (weight_or_default kwargs)
                                  (kernel_approx_or_default kwargs)
                                  (bandwidth_or_default kwargs)) M).
  { intros kwargs Hnd Hbf.
    apply point_kernel_matrix
      with (call := call_persistence_weighted_gaussian_kernel)
           (k := fun D1 D2 =>
                   persistence_weighted_gaussian_kernel D1 D2
                     (weight_or_default kwargs)
                     (kernel_approx_or_default kwargs)
                     (bandwidth_or_default kwargs));
      try assumption.
    - apply dispatch_persistence_weighted_gaussian.
    - intros D1 D2 HD1 HD2.
      apply call_weighted_gaussian_accepts; try assumption.
      + exact (Forall_not_empty_In A D1 HneA HD1).
      + exact (Forall_not_empty_In B D2 HneB HD2). }
  assert (Hss : forall kwargs,
             kw_num_directions kwargs = None ->
             kw_bandwidth_fisher kwargs = None -> kw_weight kwargs = None ->
             exists M,
               pairwise_persistence_diagram_kernels distances A (Some B)
                 (MetricName "persistence_scale_space") kwargs = Ok M
               /\ is_kernel_matrix A B
                    (fun i j => persistence_scale_space_kernel
                                  (nth i A []) (nth j B [])
                                  (kernel_approx_or_default kwargs)
                                  (bandwidth_or_default kwargs)) M).
  { intros kwargs Hnd Hbf Hw.
    apply point_kernel_matrix
      with (call := call_persistence_scale_space_kernel)
           (k := fun D1 D2 =>
                   persistence_scale_space_kernel D1 D2
                     (kernel_approx_or_default kwargs)
                     (bandwidth_or_default kwargs));
      try assumption.
    - apply dispatch_persistence_scale_space.
    - intros D1 D2 HD1 HD2.
      apply call_scale_space_accepts; try assumption.
      + exact (Forall_not_empty_In A D1 HneA HD1).
      + exact (Forall_not_empty_In B D2 HneB HD2). }
  assert (Hsw : forall kwargs num_directions b,
             kw_num_directions kwargs = Some num_directions ->
             kw_bandwidth kwargs = Some b ->
             exists Dist M,
               distances A (Some B) "sliced_wasserstein"
                 {| kw_num_directions := Some num_directions;
                    kw_bandwidth := None; kw_bandwidth_fisher := None;
                    kw_kernel_approx := None; kw_weight := None |} = Ok Dist
               /\ pairwise_persistence_diagram_kernels distances A (Some B)
                    (MetricName "sliced_wasserstein") kwargs = Ok M
               /\ is_kernel_matrix A B
                    (fun i j => exp ((- entry Dist i j) / b)) M).
  { intros kwargs nd b Hnd Hb.
    destruct (distance_kernel_matrix distances A B HA HB HL Hdist
                "sliced_wasserstein"
                {| kw_num_directions := Some nd;
                   kw_bandwidth := None; kw_bandwidth_fisher := None;
                   kw_kernel_approx := None; kw_weight := None |} b)
      as [Dist [HDist [Hrun Hmat]]].
    exists Dist, (exp_neg_div Dist b).
    split; [exact HDist|]. split; [|exact Hmat].
    rewrite dispatch_sliced_wasserstein, Hnd, Hb.
    rewrite padded_representation_pair by assumption.
    simpl. now rewrite HDist. }
  assert (Hpf : forall kwargs kernel_approx b1 b2,
             kw_kernel_approx kwargs = Some kernel_approx ->
             kw_bandwidth kwargs = Some b1 ->
             kw_bandwidth_fisher kwargs = Some b2 ->
             exists Dist M,
               distances A (Some B) "persistence_fisher"
                 {| kw_num_directions := None;
                    kw_bandwidth := Some b1; kw_bandwidth_fisher := None;
                    kw_kernel_approx := Some kernel_approx;
                    kw_weight := None |} = Ok Dist
               /\ pairwise_persistence_diagram_kernels distances A (Some B)
                    (MetricName "persistence_fisher") kwargs = Ok M
               /\ is_kernel_matrix A B
                    (fun i j => exp ((- entry Dist i j) / b2)) M).
  { intros kwargs ka b1 b2 Hka Hb1 Hb2.
    destruct (distance_kernel_matrix distances A B HA HB HL Hdist
                "persistence_fisher"
                {| kw_num_directions := None;
                   kw_bandwidth := Some b1; kw_bandwidth_fisher := None;
                   kw_kernel_approx := Some ka; kw_weight := None |} b2)
      as [Dist [HDist [Hrun Hmat]]].
    exists Dist, (exp_neg_div Dist b2).
    split; [exact HDist|]. split; [|exact Hmat].
    rewrite dispatch_persistence_fisher, Hka, Hb1, Hb2.
    rewrite padded_representation_pair by assumption.
    simpl. now rewrite HDist. }
  split; [intros kwargs Hnd Hbf _; now apply Hwg|].
  split; [intros kwargs Hnd Hbf Hw _; now apply Hss|].
  split.
  { intros f k kwargs Hf.
    apply point_kernel_matrix
      with (call := call_metric (MetricCallable f)) (k := k);
      try assumption.
    reflexivity. }
  split; [intros kwargs nd b Hnd Hb _; now apply Hsw|].
  split; [intros kwargs ka b1 b2 Hka Hb1 Hb2 _; now apply Hpf|].
  split.
  { intros self.
    destruct (Hsw {| kw_num_directions :=
                       Some (SlicedWassersteinKernel.num_directions self);
                     kw_bandwidth := Some (SlicedWassersteinKernel.bandwidth self);
                     kw_bandwidth_fisher := None; kw_kernel_approx := None;
                     kw_weight := None |} _ _ eq_refl eq_refl)
      as [Dist [M [_ [HM [Hshape _]]]]].
    exists M. split; [exact HM | exact Hshape]. }
  split.
  { intros self.
    destruct (Hwg {| kw_num_directions := None;
                     kw_bandwidth :=
                       Some (PersistenceWeightedGaussianKernel.bandwidth self);
                     kw_bandwidth_fisher := None;
                     kw_kernel_approx :=
                       Some (PersistenceWeightedGaussianKernel.kernel_approx self);
                     kw_weight :=
                       Some (PersistenceWeightedGaussianKernel.weight self) |}
                eq_refl eq_refl)
      as [M [HM [Hshape _]]].
    exists M. split; [exact HM | exact Hshape]. }
  split.
  { intros self.
    destruct (Hss {| kw_num_directions := None;
                     kw_bandwidth :=
                       Some (PersistenceScaleSpaceKernel.bandwidth self);
                     kw_bandwidth_fisher := None;
                     kw_kernel_approx :=
                       Some (PersistenceScaleSpaceKernel.kernel_approx self);
                     kw_weight := None |} eq_refl eq_refl eq_refl)
      as [M [HM [Hshape _]]].
    exists M. split; [exact HM | exact Hshape]. }
  intros self.
  destruct (Hpf {| kw_num_directions := None;
                   kw_bandwidth := Some (PersistenceFisherKernel.bandwidth self);
                   kw_bandwidth_fisher :=
                     Some (PersistenceFisherKernel.bandwidth_fisher self);
                   kw_kernel_approx :=
                     Some (PersistenceFisherKernel.kernel_approx self);
                   kw_weight := None |} _ _ _ eq_refl eq_refl eq_refl)
    as [Dist [M [_ [HM [Hshape _]]]]].
  exists M. split; [exact HM | exact Hshape].
Qed.

Lemma kernel_matrix_of_non_empty_collections_witness :
  exists M,
    pairwise_persistence_diagram_kernels zero_distances
      [[(0, 1)]] (Some [[(0, 1)]; [(1, 3); (2, 5)]])
      (MetricName "persistence_weighted_gaussian") no_kwargs = Ok M
    /\ is_kernel_matrix [[(0, 1)]] [[(0, 1)]; [(1, 3); (2, 5)]]
         (fun i j => persistence_weighted_gaussian_kernel
                       (nth i [[(0, 1)]] [])
                       (nth j [[(0, 1)]; [(1, 3); (2, 5)]] [])
                       default_weight None 1) M.
Proof.
  assert (HA : [[(0, 1)]] <> @nil (list (R * R))) by discriminate.
  assert (HB : [[(0, 1)]; [(1, 3); (2, 5)]] <> @nil (list (R * R)))
    by discriminate.
  assert (HneA : Forall (fun D : list (R * R) => D <> []) [[(0, 1)]])
    by (repeat constructor; discriminate).
  assert (HneB : Forall (fun D : list (R * R) => D <> [])
                   [[(0, 1)]; [(1, 3); (2, 5)]])
    by (repeat constructor; discriminate).
  destruct (kernel_matrix_of_non_empty_collections zero_distances _ _
              HA HB HneA HneB (zero_distances_shape _ _)) as [H _].
  apply (H no_kwargs eq_refl eq_refl).
  exact R1_neq_R0.
Defined.

(** The claim C5 as stated fails on empty collections: the padding step
    raises before any kernel is computed, and no matrix of shape [(0, 0)]
    is returned. *)
Lemma kernel_matrix_of_empty_collections :
  exists e,
    pairwise_persistence_diagram_kernels zero_distances [] (Some [])
      (MetricName "persistence_weighted_gaussian") no_kwargs
    = Raise e.
Proof. eexists. reflexivity. Qed.

(** ** The persistence Fisher branch *)

(** C1: in the persistence Fisher branch the value of ["bandwidth"] is
    handed to the distance computation and the value of
    ["bandwidth_fisher"] is the divisor of the exponentiation: the two
    hyperparameters are threaded through independently, but in the roles
    opposite to the documented ones.  With [bandwidth = 1] and
    [bandwidth_fisher = 2], a distance computation that returns the
    bandwidth it received yields the entry [exp(-1/2)], not [exp(-2/1)]. *)
Theorem persistence_fisher_bandwidth_roles :
  (forall (distances : DiagramDistances) (X : list Diagram)
          (Y : option (list Diagram))
          (kernel_approx : option KernelApproximation)
          (bandwidth bandwidth_fisher : R),
      pairwise_persistence_diagram_kernels distances X Y
        (MetricName "persistence_fisher")
        {| kw_num_directions := None;
           kw_bandwidth := Some bandwidth;
           kw_bandwidth_fisher := Some bandwidth_fisher;
           kw_kernel_approx := Some kernel_approx;
           kw_weight := None |}
      = (padded <- padded_representation X Y ;;
         Dist <- distances X Y "persistence_fisher"
                   {| kw_num_directions := None;
                      kw_bandwidth := Some bandwidth;
                      kw_bandwidth_fisher := None;
                      kw_kernel_approx := Some kernel_approx;
                      kw_weight := None |} ;;
         Ok (exp_neg_div Dist bandwidth_fisher)))
  /\ pairwise_persistence_diagram_kernels bandwidth_distances
       [[(0, 1)]] (Some [[(0, 1)]])
       (MetricName "persistence_fisher")
       {| kw_num_directions := None;
          kw_bandwidth := Some 1;
          kw_bandwidth_fisher := Some 2;
          kw_kernel_approx := Some None;
          kw_weight := None |}
     = Ok [[exp ((- 1) / 2)]]
  /\ exp ((- 1) / 2) <> exp ((- 2) / 1).
Proof.
  split; [reflexivity|]. split.
  - rewrite dispatch_persistence_fisher.
    rewrite padded_representation_pair;
      [reflexivity | discriminate | discriminate | simpl; lia].
  - intros H. apply exp_inv in H. lra.
Qed.

(** ** Missing hyperparameters *)

Section MissingKeys.
Variable distances : DiagramDistances.
Variables (X : list Diagram) (Y : option (list Diagram)) (kwargs : Kwargs).

Lemma sliced_wasserstein_needs_its_keys (M : list (list R)) :
  kw_num_directions kwargs = None \/ kw_bandwidth kwargs = None ->
  pairwise_persistence_diagram_kernels distances X Y
    (MetricName "sliced_wasserstein") kwargs <> Ok M.
Proof.
  intros Hmiss H. rewrite dispatch_sliced_wasserstein in H.
  apply bind_Ok_inv in H as [padded [_ H]].
  apply bind_Ok_inv in H as [nd [Hnd H]].
  apply bind_Ok_inv in H as [Dist [_ H]].
  apply bind_Ok_inv in H as [b [Hb _]].
  destruct Hmiss as [E|E]; rewrite E in *; discriminate.
Qed.

Lemma persistence_fisher_needs_its_keys (M : list (list R)) :
  kw_kernel_approx kwargs = None \/ kw_bandwidth kwargs = None
  \/ kw_bandwidth_fisher kwargs = None ->
  pairwise_persistence_diagram_kernels distances X Y
    (MetricName "persistence_fisher") kwargs <> Ok M.
Proof.
  intros Hmiss H. rewrite dispatch_persistence_fisher in H.
  apply bind_Ok_inv in H as [padded [_ H]].
  apply bind_Ok_inv in H as [ka [Hka H]].
  apply bind_Ok_inv in H as [b [Hb H]].
  apply bind_Ok_inv in H as [Dist [_ H]].
  apply bind_Ok_inv in H as [bf [Hbf _]].
  destruct Hmiss as [E|[E|E]]; rewrite E in *; discriminate.
Qed.

Variable padded : list (list R) * option (list (list R)).
Hypothesis padded_ok : padded_representation X Y = Ok padded.

Lemma missing_num_directions :
  kw_num_directions kwargs = None ->
  pairwise_persistence_diagram_kernels distances X Y
    (MetricName "sliced_wasserstein") kwargs
  = Raise (KeyError "num_directions").
Proof.
  intros E. now rewrite dispatch_sliced_wasserstein, padded_ok, E.
Qed.

Lemma missing_bandwidth_sliced_wasserstein (num_directions : Z) :
  kw_num_directions kwargs = Some num_directions ->
  kw_bandwidth kwargs = None ->
  pairwise_persistence_diagram_kernels distances X Y
    (MetricName "sliced_wasserstein") kwargs
  = (Dist <- distances X Y "sliced_wasserstein"
               {| kw_num_directions := Some num_directions;
                  kw_bandwidth := None; kw_bandwidth_fisher := None;
                  kw_kernel_approx := None; kw_weight := None |} ;;
     Raise (KeyError "bandwidth")).
Proof.
  intros E1 E2. now rewrite dispatch_sliced_wasserstein, padded_ok, E1, E2.
Qed.

Lemma missing_kernel_approx :
  kw_kernel_approx kwargs = None ->
  pairwise_persistence_diagram_kernels distances X Y
    (MetricName "persistence_fisher") kwargs
  = Raise (KeyError "kernel_approx").
Proof.
  intros E. now rewrite dispatch_persistence_fisher, padded_ok, E.
Qed.

Lemma missing_bandwidth_persistence_fisher
    (kernel_approx : option KernelApproximation) :
  kw_kernel_approx kwargs = Some kernel_approx ->
  kw_bandwidth kwargs = None ->
  pairwise_persistence_diagram_kernels distances X Y
    (MetricName "persistence_fisher") kwargs
  = Raise (KeyError "bandwidth").
Proof.
  intros E1 E2. now rewrite dispatch_persistence_fisher, padded_ok, E1, E2.
Qed.

Lemma missing_bandwidth_fisher
    (kernel_approx : option KernelApproximation) (bandwidth : R) :
  kw_kernel_approx kwargs = Some kernel_approx ->
  kw_bandwidth kwargs = Some bandwidth ->
  kw_bandwidth_fisher kwargs = None ->
  pairwise_persistence_diagram_kernels distances X Y
    (MetricName "persistence_fisher") kwargs
  = (Dist <- distances X Y "persistence_fisher"
               {| kw_num_directions := None;
                  kw_bandwidth := Some bandwidth;
                  kw_bandwidth_fisher := None;
                  kw_kernel_approx := Some kernel_approx;
                  kw_weight := None |} ;;
     Raise (KeyError "bandwidth_fisher")).
Proof.
  intros E1 E2 E3.
  now rewrite dispatch_persistence_fisher, padded_ok, E1, E2, E3.
Qed.

End MissingKeys.

(** C6 (amended): with the metric ["sliced_wasserstein"] or
    ["persistence_fisher"] and a required key absent from the keyword
    arguments, the dispatcher never returns a matrix.  When the padded
    representation of the batch can be built, the failure is the key-lookup
    error naming the first absent key in the order of the lookups:
    ["num_directions"] then ["bandwidth"] for the sliced Wasserstein kernel,
    ["kernel_approx"], ["bandwidth"] then ["bandwidth_fisher"] for the
    persistence Fisher kernel; the lookup of the divisor (the last key of
    each branch) happens after the distance computation, whose own failure
    comes first. *)
Theorem missing_hyperparameter_key_error :
  forall (distances : DiagramDistances) (X : list Diagram)
         (Y : option (list Diagram)) (kwargs : Kwargs),
    (kw_num_directions kwargs = None \/ kw_bandwidth kwargs = None ->
     forall M, pairwise_persistence_diagram_kernels distances X Y
                 (MetricName "sliced_wasserstein") kwargs <> Ok M)
    /\ (kw_kernel_approx kwargs = None \/ kw_bandwidth kwargs = None
        \/ kw_bandwidth_fisher kwargs = None ->
        forall M, pairwise_persistence_diagram_kernels distances X Y
                    (MetricName "persistence_fisher") kwargs <> Ok M)
    /\ (forall padded,
          padded_representation X Y = Ok padded ->
          (kw_num_directions kwargs = None ->
           pairwise_persistence_diagram_kernels distances X Y
             (MetricName "sliced_wasserstein") kwargs
           = Raise (KeyError "num_directions"))
          /\ (forall num_directions,
                kw_num_directions kwargs = Some num_directions ->
                kw_bandwidth kwargs = None ->
                pairwise_persistence_diagram_kernels distances X Y
                  (MetricName "sliced_wasserstein") kwargs
                = (Dist <- distances X Y "sliced_wasserstein"
                             {| kw_num_directions := Some num_directions;
                                kw_bandwidth := None;
                                kw_bandwidth_fisher := None;
                                kw_kernel_approx := None;
                                kw_weight := None |} ;;
                   Raise (KeyError "bandwidth")))
          /\ (kw_kernel_approx kwargs = None ->
              pairwise_persistence_diagram_kernels distances X Y
                (MetricName "persistence_fisher") kwargs
              = Raise (KeyError "kernel_approx"))
          /\ (forall kernel_approx,
                kw_kernel_approx kwargs = Some kernel_approx ->
                kw_bandwidth kwargs = None ->
                pairwise_persistence_diagram_kernels distances X Y
                  (MetricName "persistence_fisher") kwargs
                = Raise (KeyError "bandwidth"))
          /\ (forall kernel_approx bandwidth,
                kw_kernel_approx kwargs = Some kernel_approx ->
                kw_bandwidth kwargs = Some bandwidth ->
                kw_bandwidth_fisher kwargs = None ->
                pairwise_persistence_diagram_kernels distances X Y
                  (MetricName "persistence_fisher") kwargs
                = (Dist <- distances X Y "persistence_fisher"
                             {| kw_num_directions := None;
                                kw_bandwidth := Some bandwidth;
                                kw_bandwidth_fisher := None;
                                kw_kernel_approx := Some kernel_approx;
                                kw_weight := None |} ;;
                   Raise (KeyError "bandwidth_fisher")))).
Proof.
  intros distances X Y kwargs.
  split; [intros H M; now apply sliced_wasserstein_needs_its_keys|].
  split; [intros H M; now apply persistence_fisher_needs_its_keys|].
  intros padded Hpadded.
  split; [now apply missing_num_directions with (padded := padded)|].
  split; [intros nd;
          now apply missing_bandwidth_sliced_wasserstein
            with (padded := padded)|].
  split; [now apply missing_kernel_approx with (padded := padded)|].
  split; [intros ka;
          now apply missing_bandwidth_persistence_fisher
            with (padded := padded)|].
  intros ka b.
  now apply missing_bandwidth_fisher with (padded := padded).
Qed.

Lemma missing_hyperparameter_key_error_witness :
  pairwise_persistence_diagram_kernels zero_distances [[(0, 1)]] None
    (MetricName "sliced_wasserstein") no_kwargs
  = Raise (KeyError "num_directions")
  /\ pairwise_persistence_diagram_kernels zero_distances [[(0, 1)]] None
       (MetricName "sliced_wasserstein")
       {| kw_num_directions := Some 10%Z; kw_bandwidth := None;
          kw_bandwidth_fisher := None; kw_kernel_approx := None;
          kw_weight := None |}
     = Raise (KeyError "bandwidth").
Proof.
  assert (Hpad : padded_representation [[(0, 1)]] None
                 = Ok (map (flatten_padded (max_pts [[(0, 1)]])) [[(0, 1)]],
                       None)).
  { apply padded_representation_self; [discriminate | simpl; lia]. }
  split.
  - destruct (missing_hyperparameter_key_error zero_distances
                [[(0, 1)]] None no_kwargs) as [_ [_ H]].
    destruct (H _ Hpad) as [H1 _]. exact (H1 eq_refl).
  - destruct (missing_hyperparameter_key_error zero_distances
                [[(0, 1)]] None
                {| kw_num_directions := Some 10%Z; kw_bandwidth := None;
                   kw_bandwidth_fisher := None; kw_kernel_approx := None;
                   kw_weight := None |}) as [_ [_ H]].
    destruct (H _ Hpad) as [_ [H2 _]]. exact (H2 _ eq_refl eq_refl).
Defined.

(** The claim C6 as stated fails on empty collections: the padded
    representation is built before the branch on the metric, and
    [len(pD[0])] raises before any key is looked up. *)
Lemma missing_key_with_empty_collections :
  pairwise_persistence_diagram_kernels zero_distances [] (Some [])
    (MetricName "sliced_wasserstein") no_kwargs
  = Raise IndexError.
Proof. reflexivity. Qed.

(** C10 (amended): the persistence Fisher branch looks the key
    ["kernel_approx"] up directly and forwards its value to the distance
    computation.  A call whose keyword arguments hold ["bandwidth"] and
    ["bandwidth_fisher"] but no ["kernel_approx"] never returns a matrix,
    and fails with the key-lookup error naming ["kernel_approx"] whenever
    the padded representation of the batch can be built. *)
Theorem persistence_fisher_requires_kernel_approx :
  forall (distances : DiagramDistances) (X : list Diagram)
         (Y : option (list Diagram)) (kwargs : Kwargs) (b1 b2 : R),
    kw_bandwidth kwargs = Some b1 ->
    kw_bandwidth_fisher kwargs = Some b2 ->
    kw_kernel_approx kwargs = None ->
    (forall M, pairwise_persistence_diagram_kernels distances X Y
                 (MetricName "persistence_fisher") kwargs <> Ok M)
    /\ (forall padded,
          padded_representation X Y = Ok padded ->
          pairwise_persistence_diagram_kernels distances X Y
            (MetricName "persistence_fisher") kwargs
          = Raise (KeyError "kernel_approx"))
    /\ (forall kernel_approx, exists kw divisor,
          kw_kernel_approx kw = Some kernel_approx
          /\ pairwise_persistence_diagram_kernels distances X Y
               (MetricName "persistence_fisher")
               {| kw_num_directions := kw_num_directions kwargs;
                  kw_bandwidth := Some b1;
                  kw_bandwidth_fisher := Some b2;
                  kw_kernel_approx := Some kernel_approx;
                  kw_weight := kw_weight kwargs |}
             = (padded <- padded_representation X Y ;;
                Dist <- distances X Y "persistence_fisher" kw ;;
                Ok (exp_neg_div Dist divisor))).
Proof.
  intros distances X Y kwargs b1 b2 Hb1 Hb2 Hka.
  split; [intros M; apply persistence_fisher_needs_its_keys; auto|].
  split; [intros padded Hpadded;
          now apply missing_kernel_approx with (padded := padded)|].
  intros ka. eexists _, _. split; [|reflexivity]. reflexivity.
Qed.

Lemma persistence_fisher_requires_kernel_approx_witness :
  pairwise_persistence_diagram_kernels zero_distances
    [[(0, 1)]] (Some [[(0, 1); (1, 2)]])
    (MetricName "persistence_fisher")
    {| kw_num_directions := None; kw_bandwidth := Some 1;
       kw_bandwidth_fisher := Some 1; kw_kernel_approx := None;
       kw_weight := None |}
  = Raise (KeyError "kernel_approx").
Proof.
  destruct (persistence_fisher_requires_kernel_approx zero_distances
              [[(0, 1)]] (Some [[(0, 1); (1, 2)]])
              {| kw_num_directions := None; kw_bandwidth := Some 1;
                 kw_bandwidth_fisher := Some 1; kw_kernel_approx := None;
                 kw_weight := None |} 1 1 eq_refl eq_refl eq_refl)
    as [_ [H _]].
  apply (H (map (flatten_padded 2) [[(0, 1)]],
            Some (map (flatten_padded 2) [[(0, 1); (1, 2)]]))).
  apply (padded_representation_pair [[(0, 1)]] [[(0, 1); (1, 2)]]);
    [discriminate | discriminate | simpl; lia].
Defined.

(** The claim C10 as stated fails on empty collections: the call fails,
    but with the error of [len(pD[0])], raised before the branch is
    reached. *)
Lemma persistence_fisher_with_empty_collections :
  pairwise_persistence_diagram_kernels zero_distances [] (Some [])
    (MetricName "persistence_fisher")
    {| kw_num_directions := None; kw_bandwidth := Some 1;
       kw_bandwidth_fisher := Some 1; kw_kernel_approx := None;
       kw_weight := None |}
  = Raise IndexError.
Proof. reflexivity. Qed.

(** ** Exponentiated distances *)





(** ** Self-kernel matrices *)

Lemma symmetric_exp_neg_div (n : nat) (Dist : list (list R)) (b : R) :
  has_shape n n Dist -> symmetric Dist -> symmetric (exp_neg_div Dist b).
Proof.
  intros Hshape Hsym i j Hi Hj.
  assert (Hn : length (exp_neg_div Dist b) = n).
  { unfold exp_neg_div. rewrite length_map. apply Hshape. }
  rewrite Hn in Hi, Hj.
  rewrite !(exp_neg_div_entry n n) by assumption.
  rewrite Hsym; [reflexivity | |]; destruct Hshape as [-> _]; assumption.
Qed.

Lemma symmetric_gram (k : Diagram -> Diagram -> R) (A : list Diagram) :
  (forall D1 D2, k D1 D2 = k D2 D1) -> symmetric (gram k A A).
Proof.
  intros Hk i j Hi Hj.
  assert (Hn : length (gram k A A) = length A) by apply gram_shape.
  rewrite Hn in Hi, Hj.
  rewrite !gram_entry by assumption. apply Hk.
Qed.

(** The matrix of a point kernel on a single collection. *)
Lemma self_point_kernel_matrix
    (call : Diagram -> Diagram -> Kwargs -> result R)
    (k : Diagram -> Diagram -> R) (kwargs : Kwargs) (A : list Diagram)
    (M : list (list R)) :
  (forall D1 D2 r, call D1 D2 kwargs = Ok r -> r = k D1 D2) ->
  (padded <- padded_representation A None ;;
   pairwise_kernels (fst padded) (snd padded) (sklearn_wrapper call kwargs))
  = Ok M ->
  M = gram k A A.
Proof.
  intros Hvalue H.
  apply bind_Ok_inv in H as [padded [Hpadded H]].
  apply padded_representation_self_inv in Hpadded as [HA [HL ->]].
  simpl fst in H. simpl snd in H.
  rewrite pairwise_kernels_None in H.
  apply (pairwise_kernels_wrapper_pair_inv call k kwargs) in H;
    [tauto | apply max_pts_all | apply max_pts_all | exact Hvalue].
Qed.

(** The run of a point kernel on a single collection. *)
Lemma self_point_kernel_run
    (call : Diagram -> Diagram -> Kwargs -> result R)
    (k : Diagram -> Diagram -> R) (kwargs : Kwargs) (X : list Diagram) :
  X <> [] -> (0 < max_pts X)%nat ->
  (forall D1 D2, In D1 X -> In D2 X -> call D1 D2 kwargs = Ok (k D1 D2)) ->
  (padded <- padded_representation X None ;;
   pairwise_kernels (fst padded) (snd padded) (sklearn_wrapper call kwargs))
  = Ok (gram k X X).
Proof.
  intros HX HL Hcall.
  rewrite padded_representation_self by assumption. simpl bind.
  simpl fst. simpl snd. rewrite pairwise_kernels_None.
  apply pairwise_kernels_wrapper_pair;
    [apply max_pts_all | apply max_pts_all | exact Hcall].
Qed.

(** The two kernel functions return on diagrams that have points. *)
Lemma call_scale_space_defaults (D1 D2 : Diagram) :
  D1 <> [] -> D2 <> [] ->
  call_persistence_scale_space_kernel D1 D2 no_kwargs
  = Ok (persistence_scale_space_kernel D1 D2 None 1).
Proof.
  intros H1 H2.
  now rewrite (call_scale_space_accepts no_kwargs eq_refl eq_refl eq_refl).
Qed.

Lemma call_weighted_gaussian_defaults (D1 D2 : Diagram) :
  D1 <> [] -> D2 <> [] ->
  call_persistence_weighted_gaussian_kernel D1 D2 no_kwargs
  = Ok (persistence_weighted_gaussian_kernel D1 D2 default_weight None 1).
Proof.
  intros H1 H2.
  now rewrite (call_weighted_gaussian_accepts no_kwargs eq_refl eq_refl).
Qed.

(** C8: for each of the four built-in metrics, the matrix the dispatcher
    returns for a single collection [A] (second collection omitted) is a
    square matrix of size [length A] whose entry [(i, j)] equals its entry
    [(j, i)], the distance computation returning symmetric matrices of
    self-distances. *)
Theorem self_kernel_matrix_symmetric :
  forall (distances : DiagramDistances) (A : list Diagram) (name : string)
         (kwargs : Kwargs) (M : list (list R)),
    In name ["sliced_wasserstein"; "persistence_fisher";
             "persistence_scale_space"; "persistence_weighted_gaussian"] ->
    (forall n kw Dist,
        distances A None n kw = Ok Dist ->
        has_shape (length A) (length A) Dist /\ symmetric Dist) ->
    pairwise_persistence_diagram_kernels distances A None (MetricName name)
      kwargs = Ok M ->
    has_shape (length A) (length A) M /\ symmetric M.
Proof.
  intros distances A name kwargs M Hname Hdist H.
  simpl in Hname.
  destruct Hname as [<- | [<- | [<- | [<- | []]]]].
  - rewrite dispatch_sliced_wasserstein in H.
    apply bind_Ok_inv in H as [padded [_ H]].
    apply bind_Ok_inv in H as [nd [_ H]].
    apply bind_Ok_inv in H as [Dist [HDist H]].
    apply bind_Ok_inv in H as [b [_ H]].
    injection H as <-.
    apply Hdist in HDist as [Hshape Hsym]. split.
    + now apply exp_neg_div_shape.
    + now apply symmetric_exp_neg_div with (n := length A).
  - rewrite dispatch_persistence_fisher in H.
    apply bind_Ok_inv in H as [padded [_ H]].
    apply bind_Ok_inv in H as [ka [_ H]].
    apply bind_Ok_inv in H as [b1 [_ H]].
    apply bind_Ok_inv in H as [Dist [HDist H]].
    apply bind_Ok_inv in H as [b [_ H]].
    injection H as <-.
    apply Hdist in HDist as [Hshape Hsym]. split.
    + now apply exp_neg_div_shape.
    + now apply symmetric_exp_neg_div with (n := length A).
  - rewrite dispatch_persistence_scale_space in H.
    apply self_point_kernel_matrix
      with (k := fun D1 D2 =>
                   persistence_scale_space_kernel D1 D2
                     (kernel_approx_or_default kwargs)
                     (bandwidth_or_default kwargs)) in H;
      [| apply call_scale_space_value].
    subst M. split; [apply gram_shape|].
    apply symmetric_gram. intros D1 D2. apply scale_space_sym.
  - rewrite dispatch_persistence_weighted_gaussian in H.
    apply self_point_kernel_matrix
      with (k := fun D1 D2 =>
                   persistence_weighted_gaussian_kernel D1 D2
                     (weight_or_default kwargs)
                     (kernel_approx_or_default kwargs)
                     (bandwidth_or_default kwargs)) in H;
      [| apply call_weighted_gaussian_value].
    subst M. split; [apply gram_shape|].
    apply symmetric_gram. intros D1 D2. apply weighted_gaussian_sym.
Qed.

Lemma zero_distances_symmetric (A : list Diagram) (n : string) (kw : Kwargs)
    (Dist : list (list R)) :
  zero_distances A None n kw = Ok Dist ->
  has_shape (length A) (length A) Dist /\ symmetric Dist.
Proof.
  intros H. injection H as <-.
  change (map (fun _ : list (R * R) => map (fun _ : list (R * R) => 0) A) A)
    with (gram (fun _ _ => 0) A A).
  split; [apply gram_shape|].
  apply symmetric_gram. reflexivity.
Qed.

Lemma self_kernel_matrix_symmetric_witness :
  has_shape 2 2
    (gram (fun D1 D2 => persistence_scale_space_kernel D1 D2 None 1)
       [[(0, 1)]; [(1, 3); (2, 5)]] [[(0, 1)]; [(1, 3); (2, 5)]])
  /\ symmetric
       (gram (fun D1 D2 => persistence_scale_space_kernel D1 D2 None 1)
          [[(0, 1)]; [(1, 3); (2, 5)]] [[(0, 1)]; [(1, 3); (2, 5)]]).
Proof.
  apply (self_kernel_matrix_symmetric zero_distances
           [[(0, 1)]; [(1, 3); (2, 5)]] "persistence_scale_space" no_kwargs).
  - simpl. tauto.
  - apply zero_distances_symmetric.
  - rewrite dispatch_persistence_scale_space.
    apply (self_point_kernel_run call_persistence_scale_space_kernel
             (fun D1 D2 => persistence_scale_space_kernel D1 D2 None 1));
      [discriminate | simpl; lia |].
    intros D1 D2 H1 H2. apply call_scale_space_defaults.
    + destruct H1 as [<-|[<-|[]]]; discriminate.
    + destruct H2 as [<-|[<-|[]]]; discriminate.
Defined.

(** * Further properties of the kernels *)

(** ** More on sums *)

Section MoreSums.
Context {A : Type}.

Lemma vsum_map_app (f : A -> R) (l1 l2 : list A) :
  vsum (map f (l1 ++ l2)) = vsum (map f l1) + vsum (map f l2).
Proof.
  induction l1 as [|x l1 IH]; simpl; [lra|].
  rewrite IH. lra.
Qed.

Lemma vsum_map_perm (f : A -> R) (l l' : list A) :
  Permutation l l' -> vsum (map f l) = vsum (map f l').
Proof.
  induction 1 as [|x l l' _ IH|x y l|l l' l'' _ IH1 _ IH2]; simpl.
  - reflexivity.
  - now rewrite IH.
  - lra.
  - now rewrite IH1.
Qed.

Lemma vsum_map_le (f g : A -> R) (l : list A) :
  (forall x, In x l -> f x <= g x) ->
  vsum (map f l) <= vsum (map g l).
Proof.
  induction l as [|x l IH]; simpl; intros H; [lra|].
  assert (f x <= g x) by (apply H; now left).
  assert (vsum (map f l) <= vsum (map g l)) by (apply IH; auto).
  lra.
Qed.

Lemma vsum_map_nonneg (f : A -> R) (l : list A) :
  (forall x, In x l -> 0 <= f x) -> 0 <= vsum (map f l).
Proof.
  intros H. rewrite <- (vsum_map_zero l). now apply vsum_map_le.
Qed.

Lemma vsum_map_scal_r (c : R) (f : A -> R) (l : list A) :
  vsum (map (fun x => f x * c) l) = vsum (map f l) * c.
Proof.
  induction l as [|x l IH]; simpl; [lra|].
  rewrite IH. lra.
Qed.
End MoreSums.

Lemma normalisation_pos (b : R) : 0 < b -> 0 < normalisation b.
Proof.
  intros Hb. unfold normalisation.
  assert (0 < sqrt (2 * PI)).
  { apply sqrt_lt_R0. pose proof PI_RGT_0. lra. }
  apply Rdiv_lt_0_compat; [lra | nra].
Qed.

Lemma gauss_unit_interval (b : R) (p q : Point) :
  0 < b -> 0 < gauss b p q <= 1.
Proof.
  intros Hb. unfold gauss.
  replace ((- Rsqr (euclidean p q)) / (2 * b * b))
    with ((- (Rsqr (euclidean p q) / 2)) / (b * b)) by (field; lra).
  apply exp_neg_div_unit_interval.
  - pose proof (Rle_0_sqr (euclidean p q)). lra.
  - nra.
Qed.

Lemma gauss_same (b : R) (p : Point) : gauss b p p = 1.
Proof.
  unfold gauss, euclidean.
  rewrite !Rminus_diag, Rsqr_0, Rplus_0_r, sqrt_0, Rsqr_0, Ropp_0.
  unfold Rdiv. rewrite Rmult_0_l. apply exp_0.
Qed.

(** The exact path in terms of [gauss] and [normalisation]. *)
Lemma exact_path_gauss (D1 D2 : Diagram) (w : WeightFunction) (b : R) :
  persistence_weighted_gaussian_kernel D1 D2 w None b
  = vsum (map (fun p => vsum (map (fun q =>
      w p * w q * (normalisation b * gauss b p q)) D2)) D1).
Proof. apply exact_path_double_sum. Qed.

Lemma weighted_gaussian_perm (D1 D1' D2 D2' : Diagram) (w : WeightFunction)
    (b : R) :
  Permutation D1 D1' -> Permutation D2 D2' ->
  persistence_weighted_gaussian_kernel D1 D2 w None b
  = persistence_weighted_gaussian_kernel D1' D2' w None b.
Proof.
  intros H1 H2. rewrite !exact_path_gauss.
  rewrite (vsum_map_perm _ _ _ H1).
  apply vsum_map_ext. intros p _. now apply vsum_map_perm.
Qed.

Lemma scale_space_perm (D1 D1' D2 D2' : Diagram) (b : R) :
  Permutation D1 D1' -> Permutation D2 D2' ->
  persistence_scale_space_kernel D1 D2 None b
  = persistence_scale_space_kernel D1' D2' None b.
Proof.
  intros H1 H2. unfold persistence_scale_space_kernel. f_equal.
  apply weighted_gaussian_perm; apply Permutation_app; try assumption;
    unfold swap_columns; now apply Permutation_map.
Qed.

(** ** Order of the points, concatenation and bounds on the exact path *)

(** X1: without a kernel approximation, the value of the persistence
    weighted Gaussian kernel and of the persistence scale space kernel does
    not depend on the order of the points inside either diagram. *)
Theorem kernels_permutation_invariant :
  forall (D1 D1' D2 D2' : Diagram) (weight : WeightFunction) (bandwidth : R),
    Permutation D1 D1' -> Permutation D2 D2' ->
    persistence_weighted_gaussian_kernel D1 D2 weight None bandwidth
    = persistence_weighted_gaussian_kernel D1' D2' weight None bandwidth
    /\ persistence_scale_space_kernel D1 D2 None bandwidth
       = persistence_scale_space_kernel D1' D2' None bandwidth.
Proof.
  intros D1 D1' D2 D2' w b H1 H2. split.
  - now apply weighted_gaussian_perm.
  - now apply scale_space_perm.
Qed.

Lemma kernels_permutation_invariant_witness :
  persistence_weighted_gaussian_kernel [(0, 1); (1, 3)] [(2, 5)]
    default_weight None 1
  = persistence_weighted_gaussian_kernel [(1, 3); (0, 1)] [(2, 5)]
      default_weight None 1
  /\ persistence_scale_space_kernel [(0, 1); (1, 3)] [(2, 5)] None 1
     = persistence_scale_space_kernel [(1, 3); (0, 1)] [(2, 5)] None 1.
Proof.
  apply kernels_permutation_invariant.
  - apply perm_swap.
  - apply Permutation_refl.
Defined.

Lemma weighted_gaussian_app_l (D1 D1' D2 : Diagram) (w : WeightFunction)
    (b : R) :
  persistence_weighted_gaussian_kernel (D1 ++ D1') D2 w None b
  = persistence_weighted_gaussian_kernel D1 D2 w None b
    + persistence_weighted_gaussian_kernel D1' D2 w None b.
Proof. rewrite !exact_path_gauss. apply vsum_map_app. Qed.

(** X2: without a kernel approximation, the persistence weighted Gaussian
    kernel of non-empty diagrams is additive under concatenation, in each
    of its two diagram arguments. *)
Theorem weighted_gaussian_additive :
  forall (D1 D1' D2 D2' : Diagram) (weight : WeightFunction) (bandwidth : R),
    D1 <> [] -> D1' <> [] -> D2 <> [] -> D2' <> [] ->
    persistence_weighted_gaussian_kernel (D1 ++ D1') D2 weight None bandwidth
    = persistence_weighted_gaussian_kernel D1 D2 weight None bandwidth
      + persistence_weighted_gaussian_kernel D1' D2 weight None bandwidth
    /\ persistence_weighted_gaussian_kernel D1 (D2 ++ D2') weight None
         bandwidth
       = persistence_weighted_gaussian_kernel D1 D2 weight None bandwidth
         + persistence_weighted_gaussian_kernel D1 D2' weight None bandwidth.
Proof.
  intros D1 D1' D2 D2' w b _ _ _ _. split.
  - apply weighted_gaussian_app_l.
  - rewrite (weighted_gaussian_sym D1 (D2 ++ D2')).
    rewrite weighted_gaussian_app_l.
    now rewrite (weighted_gaussian_sym D2 D1), (weighted_gaussian_sym D2' D1).
Qed.

Lemma weighted_gaussian_additive_witness :
  persistence_weighted_gaussian_kernel ([(0, 1)] ++ [(1, 3)]) [(2, 5)]
    default_weight None 1
  = persistence_weighted_gaussian_kernel [(0, 1)] [(2, 5)] default_weight
      None 1
    + persistence_weighted_gaussian_kernel [(1, 3)] [(2, 5)] default_weight
        None 1.
Proof.
  apply (weighted_gaussian_additive [(0, 1)] [(1, 3)] [(2, 5)] [(2, 5)]);
    discriminate.
Defined.

(** X3: without a kernel approximation, with a positive bandwidth [b] and a
    weight function that is non-negative on the points of the two non-empty
    diagrams, the persistence weighted Gaussian kernel lies between [0] and
    [(1 / (sqrt(2 pi) b))] times the product of the total weights of the
    two diagrams. *)
Theorem weighted_gaussian_bounds :
  forall (D1 D2 : Diagram) (weight : WeightFunction) (bandwidth : R),
    D1 <> [] -> D2 <> [] ->
    0 < bandwidth ->
    (forall p, In p (D1 ++ D2) -> 0 <= weight p) ->
    0 <= persistence_weighted_gaussian_kernel D1 D2 weight None bandwidth
      <= normalisation bandwidth
         * (vsum (map weight D1) * vsum (map weight D2)).
Proof.
  intros D1 D2 w b _ _ Hb Hw.
  pose proof (normalisation_pos b Hb) as Hc.
  assert (Hw1 : forall p, In p D1 -> 0 <= w p)
    by (intros p H; apply Hw, in_or_app; now left).
  assert (Hw2 : forall q, In q D2 -> 0 <= w q)
    by (intros q H; apply Hw, in_or_app; now right).
  rewrite exact_path_gauss. split.
  - apply vsum_map_nonneg. intros p Hp.
    apply vsum_map_nonneg. intros q Hq.
    pose proof (gauss_unit_interval b p q Hb).
    pose proof (Hw1 p Hp). pose proof (Hw2 q Hq).
    apply Rmult_le_pos; [apply Rmult_le_pos; assumption | nra].
  - replace (normalisation b * (vsum (map w D1) * vsum (map w D2)))
      with (vsum (map (fun p => vsum (map (fun q =>
              w p * w q * normalisation b) D2)) D1)).
    + apply vsum_map_le. intros p Hp.
      apply vsum_map_le. intros q Hq.
      pose proof (gauss_unit_interval b p q Hb).
      pose proof (Hw1 p Hp). pose proof (Hw2 q Hq).
      assert (Hu : 0 <= w p * w q * normalisation b)
        by (apply Rmult_le_pos; [apply Rmult_le_pos; assumption | lra]).
      replace (w p * w q * (normalisation b * gauss b p q))
        with ((w p * w q * normalisation b) * gauss b p q) by ring.
      rewrite <- (Rmult_1_r (w p * w q * normalisation b)) at 2.
      apply Rmult_le_compat_l; [exact Hu | lra].
    + rewrite (vsum_map_ext _ (fun p =>
                 w p * (vsum (map w D2) * normalisation b))).
      * rewrite vsum_map_scal_r. ring.
      * intros p _.
        rewrite (vsum_map_ext _ (fun q => (w p * normalisation b) * w q))
          by (intros; ring).
        rewrite vsum_map_scal. ring.
Qed.

Lemma weighted_gaussian_bounds_witness :
  0 <= persistence_weighted_gaussian_kernel [(0, 1); (1, 3)] [(2, 5)]
         default_weight None 2
    <= normalisation 2
       * (vsum (map default_weight [(0, 1); (1, 3)])
          * vsum (map default_weight [(2, 5)])).
Proof.
  apply weighted_gaussian_bounds.
  - discriminate.
  - discriminate.
  - lra.
  - intros p _. unfold default_weight. lra.
Defined.

(** X4: without a kernel approximation and for a bandwidth [b] other than
    [0], the kernel of a one-point diagram with itself is the squared
    weight of the point times the normalisation [1 / (sqrt(2 pi) b)]: the
    Gaussian factor of a point with itself is [1]. *)
Theorem weighted_gaussian_one_point :
  forall (p : Point) (weight : WeightFunction) (bandwidth : R),
    bandwidth <> 0 ->
    persistence_weighted_gaussian_kernel [p] [p] weight None bandwidth
    = weight p * weight p * (1 / (sqrt (2 * PI) * bandwidth)).
Proof.
  intros p w b _. rewrite exact_path_gauss. simpl.
  rewrite gauss_same. unfold normalisation. ring.
Qed.

Lemma weighted_gaussian_one_point_witness :
  persistence_weighted_gaussian_kernel [(1, 3)] [(1, 3)]
    (fun x => snd x - fst x) None 2
  = (3 - 1) * (3 - 1) * (1 / (sqrt (2 * PI) * 2)).
Proof.
  apply (weighted_gaussian_one_point (1, 3) (fun x => snd x - fst x) 2).
  lra.
Defined.

(** ** The scale space kernel as a sum over pairs of points *)

Lemma mirror_mirror (p : Point) : mirror (mirror p) = p.
Proof. now destruct p. Qed.

Lemma swap_columns_involutive (D : Diagram) :
  swap_columns (swap_columns D) = D.
Proof.
  unfold swap_columns. rewrite map_map.
  rewrite (map_ext _ (fun p => p)) by (intros [x y]; reflexivity).
  apply map_id.
Qed.

Lemma mirror_diagonal (p : Point) : birth p = death p -> mirror p = p.
Proof. destruct p as [x y]. unfold mirror, birth, death. simpl. now intros ->. Qed.

Lemma gauss_mirror_both (b : R) (p q : Point) :
  gauss b (mirror p) (mirror q) = gauss b p q.
Proof.
  unfold gauss, euclidean, mirror, birth, death. simpl.
  now rewrite Rplus_comm.
Qed.

Lemma gauss_mirror_l (b : R) (p q : Point) :
  gauss b (mirror p) q = gauss b p (mirror q).
Proof.
  rewrite <- (gauss_mirror_both b p (mirror q)).
  now rewrite mirror_mirror.
Qed.

Lemma weight_pss_mirror (p : Point) :
  birth p <> death p -> weight_pss (mirror p) = - weight_pss p.
Proof.
  intros H.
  destruct (Rlt_le_dec (birth p) (death p)) as [Hlt|Hle].
  - rewrite (weight_pss_above p) by lra.
    rewrite (weight_pss_below (mirror p)); [lra|].
    unfold mirror, birth, death in *. simpl. lra.
  - rewrite (weight_pss_below p) by lra.
    rewrite (weight_pss_above (mirror p)); [lra|].
    unfold mirror, birth, death in *. simpl. lra.
Qed.

Lemma weight_pss_diagonal (p : Point) :
  birth p = death p -> weight_pss p = 1.
Proof. intros H. apply weight_pss_above. lra. Qed.

Lemma vsum_map_scal_half4 {A : Type} (t1 t2 t3 t4 : A -> R) (l : list A) :
  vsum (map (fun x => 0.5 * (t1 x + t2 x + t3 x + t4 x)) l)
  = 0.5 * ((vsum (map t1 l) + vsum (map t2 l))
           + (vsum (map t3 l) + vsum (map t4 l))).
Proof.
  induction l as [|x l IH]; simpl; [lra|].
  rewrite IH. lra.
Qed.

(** The scale space kernel without approximation: each pair of points
    contributes half the sum of the four weighted Gaussian terms of the
    two points and their mirror images. *)
Lemma scale_space_four_terms (D1 D2 : Diagram) (b : R) :
  persistence_scale_space_kernel D1 D2 None b
  = vsum (map (fun p => vsum (map (fun q =>
      0.5 * (weight_pss p * weight_pss q
               * (normalisation b * gauss b p q)
             + weight_pss p * weight_pss (mirror q)
               * (normalisation b * gauss b p (mirror q))
             + weight_pss (mirror p) * weight_pss q
               * (normalisation b * gauss b (mirror p) q)
             + weight_pss (mirror p) * weight_pss (mirror q)
               * (normalisation b * gauss b (mirror p) (mirror q))))
      D2)) D1).
Proof.
  unfold persistence_scale_space_kernel. rewrite exact_path_gauss.
  change (swap_columns D1) with (map mirror D1).
  change (swap_columns D2) with (map mirror D2).
  set (F := fun p q => weight_pss p * weight_pss q
                       * (normalisation b * gauss b p q)).
  assert (HG : forall p,
             vsum (map (fun q => F p q) (D2 ++ map mirror D2))
             = vsum (map (fun q => F p q) D2)
               + vsum (map (fun q => F p (mirror q)) D2)).
  { intros p. now rewrite vsum_map_app, map_map. }
  rewrite (vsum_map_ext _ (fun p =>
             vsum (map (fun q => F p q) D2)
             + vsum (map (fun q => F p (mirror q)) D2)))
    by (intros p _; apply HG).
  rewrite vsum_map_app, map_map.
  rewrite !vsum_map_plus.
  symmetry.
  rewrite (vsum_map_ext _
             (fun p => 0.5 * ((vsum (map (fun q => F p q) D2)
                               + vsum (map (fun q => F p (mirror q)) D2))
                              + (vsum (map (fun q => F (mirror p) q) D2)
                                 + vsum (map (fun q => F (mirror p) (mirror q))
                                           D2)))))
    by (intros p _;
        apply (vsum_map_scal_half4 (fun q => F p q)
                 (fun q => F p (mirror q)) (fun q => F (mirror p) q)
                 (fun q => F (mirror p) (mirror q)))).
  rewrite vsum_map_scal. f_equal.
  now rewrite !vsum_map_plus.
Qed.

(** X5: without a kernel approximation, for two non-empty diagrams without
    any point on the diagonal, the persistence scale space kernel is
    [(1 / (sqrt(2 pi) b))] times the sum over the pairs of points [(p, q)]
    of [weight_pss p * weight_pss q] times the difference of the Gaussian
    factor of [p] and [q] and the Gaussian factor of [p] and the mirror
    image of [q]; the weights are all [1] when the points lie above the
    diagonal. *)
Theorem scale_space_closed_form :
  forall (D1 D2 : Diagram) (bandwidth : R),
    D1 <> [] -> D2 <> [] ->
    Forall (fun p => birth p <> death p) D1 ->
    Forall (fun q => birth q <> death q) D2 ->
    persistence_scale_space_kernel D1 D2 None bandwidth
    = normalisation bandwidth
      * vsum (map (fun p => vsum (map (fun q =>
          weight_pss p * weight_pss q
          * (gauss bandwidth p q - gauss bandwidth p (mirror q))) D2)) D1).
Proof.
  intros D1 D2 b _ _ H1 H2.
  rewrite Forall_forall in H1, H2.
  rewrite scale_space_four_terms, <- vsum_map_scal.
  apply vsum_map_ext. intros p Hp.
  rewrite <- vsum_map_scal.
  apply vsum_map_ext. intros q Hq.
  rewrite (weight_pss_mirror p), (weight_pss_mirror q) by auto.
  rewrite gauss_mirror_both, gauss_mirror_l. lra.
Qed.

Lemma scale_space_closed_form_witness :
  persistence_scale_space_kernel [(0, 1); (1, 3)] [(2, 5)] None 1
  = normalisation 1
    * vsum (map (fun p => vsum (map (fun q =>
        weight_pss p * weight_pss q
        * (gauss 1 p q - gauss 1 p (mirror q))) [(2, 5)]))
        [(0, 1); (1, 3)]).
Proof.
  apply scale_space_closed_form; try discriminate;
    repeat constructor; unfold birth, death; simpl; lra.
Defined.



(** X7: without a kernel approximation, two non-empty diagrams made of
    diagonal points do not cancel: a diagonal point and its mirror image both get
    the weight [+1], and the persistence scale space kernel is twice the
    persistence weighted Gaussian kernel with the constant weight [1]. *)
Theorem scale_space_diagonal_points :
  forall (D1 D2 : Diagram) (bandwidth : R),
    D1 <> [] -> D2 <> [] ->
    Forall (fun p => birth p = death p) D1 ->
    Forall (fun q => birth q = death q) D2 ->
    persistence_scale_space_kernel D1 D2 None bandwidth
    = 2 * persistence_weighted_gaussian_kernel D1 D2 default_weight None
            bandwidth.
Proof.
  intros D1 D2 b _ _ H1 H2.
  rewrite Forall_forall in H1, H2.
  rewrite scale_space_four_terms, exact_path_gauss, <- vsum_map_scal.
  apply vsum_map_ext. intros p Hp.
  rewrite <- vsum_map_scal.
  apply vsum_map_ext. intros q Hq.
  rewrite (mirror_diagonal p), (mirror_diagonal q) by auto.
  rewrite (weight_pss_diagonal p), (weight_pss_diagonal q) by auto.
  unfold default_weight. lra.
Qed.

Lemma scale_space_diagonal_points_witness :
  persistence_scale_space_kernel [(1, 1)] [(4, 4); (0, 0)] None 1
  = 2 * persistence_weighted_gaussian_kernel [(1, 1)] [(4, 4); (0, 0)]
          default_weight None 1.
Proof.
  apply scale_space_diagonal_points; try discriminate;
    repeat constructor; unfold birth, death; simpl; lra.
Defined.

(** X8: exchanging the two columns of a diagram twice gives the diagram
    back, and, without a kernel approximation, the persistence scale space
    kernel of non-empty diagrams does not change when a diagram is replaced
    by its mirror image. *)
Theorem scale_space_mirror_invariant :
  forall (D1 D2 : Diagram) (bandwidth : R),
    D1 <> [] -> D2 <> [] ->
    swap_columns (swap_columns D1) = D1
    /\ persistence_scale_space_kernel (swap_columns D1) D2 None bandwidth
       = persistence_scale_space_kernel D1 D2 None bandwidth
    /\ persistence_scale_space_kernel D1 (swap_columns D2) None bandwidth
       = persistence_scale_space_kernel D1 D2 None bandwidth.
Proof.
  intros D1 D2 b _ _.
  assert (H : forall D D', persistence_scale_space_kernel (swap_columns D) D'
                             None b
                           = persistence_scale_space_kernel D D' None b).
  { intros D D'. unfold persistence_scale_space_kernel. f_equal.
    rewrite swap_columns_involutive.
    apply weighted_gaussian_perm.
    - apply Permutation_app_comm.
    - apply Permutation_refl. }
  split; [apply swap_columns_involutive|]. split.
  - apply H.
  - rewrite scale_space_sym, H. apply scale_space_sym.
Qed.

Lemma scale_space_mirror_invariant_witness :
  swap_columns (swap_columns [(0, 1); (1, 3)]) = [(0, 1); (1, 3)]
  /\ persistence_scale_space_kernel (swap_columns [(0, 1); (1, 3)])
       [(2, 5)] None 1
     = persistence_scale_space_kernel [(0, 1); (1, 3)] [(2, 5)] None 1
  /\ persistence_scale_space_kernel [(0, 1); (1, 3)]
       (swap_columns [(2, 5)]) None 1
     = persistence_scale_space_kernel [(0, 1); (1, 3)] [(2, 5)] None 1.
Proof.
  apply scale_space_mirror_invariant; discriminate.
Defined.

(** ** The approximate path *)

Lemma dot_zeros_l (d : nat) (v : list R) : dot (repeat 0 d) v = 0.
Proof.
  unfold dot. revert v.
  induction d as [|d IH]; intros [|b v]; simpl; try reflexivity.
  rewrite IH. lra.
Qed.

Lemma dot_plus_l (r acc v : list R) :
  length r = length acc ->
  dot (zip_with Rplus r acc) v = dot r v + dot acc v.
Proof.
  unfold dot. revert acc v.
  induction r as [|a r IH]; intros [|c acc] [|b v] H; simpl in *;
    try discriminate; try lra.
  injection H as H. rewrite (IH acc v H). lra.
Qed.

Lemma dot_scal_l (w : R) (r v : list R) :
  dot (map (Rmult w) r) v = w * dot r v.
Proof.
  unfold dot. revert v.
  induction r as [|a r IH]; intros [|b v]; simpl; try lra.
  rewrite IH. lra.
Qed.

Lemma dot_self_nonneg (v : list R) : 0 <= dot v v.
Proof.
  unfold dot. induction v as [|a v IH]; simpl; [lra|].
  pose proof (Rle_0_sqr a) as Ha. unfold Rsqr in Ha. lra.
Qed.

Lemma length_zip_with_same {A B C : Type} (f : A -> B -> C) (u : list A)
    (v : list B) :
  length u = length v -> length (zip_with f u v) = length u.
Proof.
  revert v. induction u as [|a u IH]; intros [|b v] H; simpl in *;
    try discriminate; try reflexivity.
  injection H as H. now rewrite IH.
Qed.

Lemma length_sum_axis0 (d : nat) (rows : list (list R)) :
  Forall (fun r => length r = d) rows -> length (sum_axis0 d rows) = d.
Proof.
  unfold sum_axis0.
  induction 1 as [|r rows Hr _ IH]; simpl; [apply repeat_length|].
  rewrite length_zip_with_same; congruence.
Qed.

(** The inner product with a column sum is the sum of the inner products
    with the rows. *)
Lemma dot_sum_axis0_l (d : nat) (rows : list (list R)) (v : list R) :
  Forall (fun r => length r = d) rows ->
  dot (sum_axis0 d rows) v = vsum (map (fun r => dot r v) rows).
Proof.
  intros H. induction H as [|r rows Hr Hrows IH]; simpl.
  - apply dot_zeros_l.
  - change (fold_right (zip_with Rplus) (repeat 0 d) rows)
      with (sum_axis0 d rows).
    rewrite dot_plus_l, IH; [reflexivity|].
    now rewrite length_sum_axis0.
Qed.

Lemma scale_rows_combine (w : WeightFunction) (D : Diagram)
    (T : list (list R)) :
  scale_rows (map w D) T
  = map (fun pr => map (Rmult (w (fst pr))) (snd pr)) (combine D T).
Proof.
  unfold scale_rows. revert T.
  induction D as [|p D IH]; intros [|row T]; simpl; try reflexivity.
  now rewrite IH.
Qed.

Lemma scale_rows_cols (d : nat) (w : WeightFunction) (D : Diagram)
    (T : list (list R)) :
  Forall (fun r => length r = d) T ->
  Forall (fun r => length r = d) (scale_rows (map w D) T).
Proof.
  intros H. rewrite scale_rows_combine.
  rewrite Forall_forall in *. intros r Hr.
  apply in_map_iff in Hr as [[p row] [<- Hin]].
  rewrite length_map. apply H. simpl.
  now apply in_combine_r in Hin.
Qed.

Lemma map_fst_combine {A B : Type} (l : list A) (l' : list B) :
  length l' = length l -> map fst (combine l l') = l.
Proof.
  revert l'. induction l as [|a l IH]; intros [|b l'] H; simpl in *;
    try discriminate; try reflexivity.
  injection H as H. now rewrite IH.
Qed.

Lemma vsum_map_combine_fst {A B : Type} (f : A -> R) (l : list A)
    (l' : list B) :
  length l' = length l ->
  vsum (map f l) = vsum (map (fun pr => f (fst pr)) (combine l l')).
Proof.
  intros H. rewrite <- (map_fst_combine l l' H) at 1.
  now rewrite map_map.
Qed.

(** The approximate path as a double sum over the points paired with their
    rows of features. *)
Lemma approx_path_double_sum (D1 D2 : Diagram) (w : WeightFunction)
    (ka : KernelApproximation) (b : R) :
  persistence_weighted_gaussian_kernel D1 D2 w (Some ka) b
  = normalisation b
    * vsum (map (fun pr => vsum (map (fun qs =>
        w (fst pr) * w (fst qs) * dot (snd pr) (snd qs))
        (combine D2 (transform ka D2)))) (combine D1 (transform ka D1))).
Proof.
  unfold persistence_weighted_gaussian_kernel, normalisation. f_equal.
  set (d := n_components ka).
  set (a2 := sum_axis0 d (scale_rows (map w D2) (transform ka D2))).
  rewrite (dot_sum_axis0_l d)
    by (apply scale_rows_cols, transform_cols).
  rewrite scale_rows_combine, map_map.
  apply vsum_map_ext. intros [p r1] _. simpl.
  rewrite dot_scal_l, dot_comm. unfold a2.
  rewrite (dot_sum_axis0_l d)
    by (apply scale_rows_cols, transform_cols).
  rewrite scale_rows_combine, map_map, <- vsum_map_scal.
  apply vsum_map_ext. intros [q r2] _. simpl.
  rewrite dot_scal_l, (dot_comm r2 r1). ring.
Qed.

(** X9: with a kernel approximation, the persistence weighted Gaussian
    kernel of non-empty diagrams is [(1 / (sqrt(2 pi) b))] times the sum, over the pairs of a
    point [p] of [D1] and a point [q] of [D2], of
    [weight p * weight q] times the inner product of the rows of features
    of [p] and [q]: the formula of the exact path with the Gaussian factor
    replaced by the inner product of the features. *)
Theorem weighted_gaussian_approx_formula :
  forall (D1 D2 : Diagram) (weight : WeightFunction)
         (kernel_approx : KernelApproximation) (bandwidth : R),
    D1 <> [] -> D2 <> [] ->
    persistence_weighted_gaussian_kernel D1 D2 weight (Some kernel_approx)
      bandwidth
    = 1 / (sqrt (2 * PI) * bandwidth)
      * vsum (map (fun pr => vsum (map (fun qs =>
          weight (fst pr) * weight (fst qs) * dot (snd pr) (snd qs))
          (combine D2 (transform kernel_approx D2))))
          (combine D1 (transform kernel_approx D1))).
Proof.
  intros D1 D2 w ka b _ _.
  now rewrite approx_path_double_sum.
Qed.

Lemma weighted_gaussian_approx_formula_witness :
  persistence_weighted_gaussian_kernel [(0, 1); (1, 3)] [(2, 5)]
    default_weight (Some constant_features) 1
  = 1 / (sqrt (2 * PI) * 1)
    * vsum (map (fun pr => vsum (map (fun qs =>
        default_weight (fst pr) * default_weight (fst qs)
        * dot (snd pr) (snd qs))
        (combine [(2, 5)] (transform constant_features [(2, 5)]))))
        (combine [(0, 1); (1, 3)]
           (transform constant_features [(0, 1); (1, 3)]))).
Proof.
  apply weighted_gaussian_approx_formula; discriminate.
Defined.

(** X10: with a kernel approximation and a positive bandwidth, the kernel
    of a non-empty diagram with itself is non-negative, whatever the weight function
    and the features. *)
Theorem weighted_gaussian_approx_self_nonneg :
  forall (D : Diagram) (weight : WeightFunction)
         (kernel_approx : KernelApproximation) (bandwidth : R),
    D <> [] ->
    0 < bandwidth ->
    0 <= persistence_weighted_gaussian_kernel D D weight (Some kernel_approx)
           bandwidth.
Proof.
  intros D w ka b _ Hb. unfold persistence_weighted_gaussian_kernel.
  apply Rmult_le_pos; [|apply dot_self_nonneg].
  left. exact (normalisation_pos b Hb).
Qed.

Lemma weighted_gaussian_approx_self_nonneg_witness :
  0 <= persistence_weighted_gaussian_kernel [(0, 1); (1, 3)] [(0, 1); (1, 3)]
         weight_pss (Some constant_features) 2.
Proof.
  apply weighted_gaussian_approx_self_nonneg; [discriminate | lra].
Defined.

(** X11: for non-empty diagrams, when the inner product of the rows of
    features of every point of [D1] and every point of [D2] is the Gaussian
    factor of the two points,
    the approximate path and the exact path give the same value. *)
Theorem weighted_gaussian_approx_exact :
  forall (D1 D2 : Diagram) (weight : WeightFunction)
         (kernel_approx : KernelApproximation) (bandwidth : R),
    D1 <> [] -> D2 <> [] ->
    (forall pr qs,
        In pr (combine D1 (transform kernel_approx D1)) ->
        In qs (combine D2 (transform kernel_approx D2)) ->
        dot (snd pr) (snd qs) = gauss bandwidth (fst pr) (fst qs)) ->
    persistence_weighted_gaussian_kernel D1 D2 weight (Some kernel_approx)
      bandwidth
    = persistence_weighted_gaussian_kernel D1 D2 weight None bandwidth.
Proof.
  intros D1 D2 w ka b _ _ H.
  rewrite approx_path_double_sum, exact_path_gauss.
  rewrite (vsum_map_combine_fst _ D1 (transform ka D1))
    by apply transform_rows.
  rewrite <- vsum_map_scal.
  apply vsum_map_ext. intros pr Hpr.
  rewrite (vsum_map_combine_fst _ D2 (transform ka D2))
    by apply transform_rows.
  rewrite <- vsum_map_scal.
  apply vsum_map_ext. intros qs Hqs.
  rewrite (H pr qs Hpr Hqs). ring.
Qed.

Lemma weighted_gaussian_approx_exact_witness :
  persistence_weighted_gaussian_kernel [(0, 1)] [(0, 1)] default_weight
    (Some constant_features) 1
  = persistence_weighted_gaussian_kernel [(0, 1)] [(0, 1)] default_weight
      None 1.
Proof.
  apply weighted_gaussian_approx_exact; try discriminate.
  intros pr qs [<-|[]] [<-|[]]. simpl.
  rewrite gauss_same. unfold dot. simpl. lra.
Defined.

(** * Further properties of the dispatcher *)

(** ** Success and failure of the padding step *)

Lemma padded_representation_self_no_point (X : list Diagram) :
  X <> [] -> max_pts X = 0%nat ->
  padded_representation X None = Raise ValueError.
Proof.
  intros HX E. unfold padded_representation.
  rewrite len_first_padding, E by assumption. simpl bind.
  unfold Padding_fit_transform.
  destruct X as [|D X]; [congruence|]. reflexivity.
Qed.

Lemma padded_representation_pair_no_point (X Y : list Diagram) :
  X <> [] -> max_pts (X ++ Y) = 0%nat ->
  padded_representation X (Some Y) = Raise ValueError.
Proof.
  intros HX E. unfold padded_representation.
  rewrite len_first_padding, E
    by (intros H; apply app_eq_nil in H; tauto).
  simpl bind. unfold Padding_fit_transform. rewrite E.
  rewrite firstn_map_app.
  destruct X as [|D X]; [congruence|]. reflexivity.
Qed.

(** The padded representation of [X] paired with itself is the one of [X]
    alone, used on both sides. *)
Lemma padded_representation_self_pair (X : list Diagram) :
  padded_representation X (Some X)
  = (padded <- padded_representation X None ;;
     Ok (fst padded, Some (fst padded))).
Proof.
  destruct X as [|D X]; [reflexivity|].
  set (X0 := D :: X). assert (HX : X0 <> []) by discriminate.
  clearbody X0. clear D X.
  assert (Hmax : max_pts (X0 ++ X0) = max_pts X0)
    by (rewrite max_pts_app; lia).
  destruct (Nat.eq_dec (max_pts X0) 0) as [E|E].
  - rewrite padded_representation_pair_no_point by congruence.
    now rewrite padded_representation_self_no_point.
  - rewrite padded_representation_pair, padded_representation_self
      by (assumption || lia).
    simpl. now rewrite Hmax.
Qed.

(** A point kernel that rejects its keyword arguments makes the whole
    matrix computation fail as soon as the padded representation exists. *)
Lemma padded_pairwise_kernels_Raise (X : list Diagram)
    (Y : option (list Diagram))
    (padded : list (list R) * option (list (list R)))
    (call : Diagram -> Diagram -> Kwargs -> result R) (kwargs : Kwargs)
    (e : exn) :
  padded_representation X Y = Ok padded ->
  (forall D1 D2, call D1 D2 kwargs = Raise e) ->
  pairwise_kernels (fst padded) (snd padded) (sklearn_wrapper call kwargs)
  = Raise e.
Proof.
  intros Hpadded Hcall.
  rewrite (pairwise_kernels_ext _ _ _ (fun _ _ => Raise e))
    by (intros x y; apply Hcall).
  destruct Y as [Y|].
  - apply padded_representation_pair_inv in Hpadded as [HX [HY [_ ->]]].
    simpl. apply pairwise_kernels_Raise.
    + destruct X; [congruence | discriminate].
    + intros YY' H. injection H as <-.
      destruct Y; [congruence | discriminate].
  - apply padded_representation_self_inv in Hpadded as [HX [_ ->]].
    simpl. apply pairwise_kernels_Raise.
    + destruct X; [congruence | discriminate].
    + discriminate.
Qed.

(** What a returned matrix of a point kernel on two collections tells. *)
Lemma pair_point_kernel_matrix
    (call : Diagram -> Diagram -> Kwargs -> result R)
    (k : Diagram -> Diagram -> R) (kwargs : Kwargs) (A B : list Diagram)
    (M : list (list R)) :
  (forall D1 D2 r, call D1 D2 kwargs = Ok r -> r = k D1 D2) ->
  (padded <- padded_representation A (Some B) ;;
   pairwise_kernels (fst padded) (snd padded) (sklearn_wrapper call kwargs))
  = Ok M ->
  A <> [] /\ B <> [] /\ (0 < max_pts (A ++ B))%nat
  /\ (forall D1 D2, In D1 A -> In D2 B -> call D1 D2 kwargs = Ok (k D1 D2))
  /\ M = gram k A B.
Proof.
  intros Hvalue H.
  apply bind_Ok_inv in H as [padded [Hpadded H]].
  apply padded_representation_pair_inv in Hpadded as [HA [HB [HL ->]]].
  simpl fst in H. simpl snd in H.
  apply (pairwise_kernels_wrapper_pair_inv call k kwargs) in H;
    [tauto | apply max_pts_app_l | apply max_pts_app_r | exact Hvalue].
Qed.

(** X12: whatever the metric and the keyword arguments, the dispatcher
    returns a matrix only when the first collection is not empty, the
    second collection, when it is given, is not empty, and some diagram of
    the batch has a point: the padded representation is built before the
    branch on the metric, also for the metrics that do not use it. *)
Theorem dispatcher_returns_only_for_non_empty_batch :
  forall (distances : DiagramDistances) (X : list Diagram)
         (Y : option (list Diagram)) (metric : Metric) (kwargs : Kwargs)
         (M : list (list R)),
    pairwise_persistence_diagram_kernels distances X Y metric kwargs = Ok M ->
    X <> [] /\ Y <> Some []
    /\ (0 < max_pts (X ++ match Y with Some Y' => Y' | None => [] end))%nat.
Proof.
  intros distances X Y metric kwargs M H.
  unfold pairwise_persistence_diagram_kernels in H.
  apply bind_Ok_inv in H as [padded [Hpadded _]].
  destruct Y as [Y|].
  - apply padded_representation_pair_inv in Hpadded as [HX [HY [HL _]]].
    repeat split; try assumption. congruence.
  - apply padded_representation_self_inv in Hpadded as [HX [HL _]].
    rewrite app_nil_r. repeat split; try assumption. discriminate.
Qed.

Lemma dispatcher_returns_only_for_non_empty_batch_witness :
  [[(0, 1)]; [(1, 3)]] <> @nil (list (R * R))
  /\ @None (list (list (R * R))) <> Some []
  /\ lt 0 (max_pts ([[(0, 1)]; [(1, 3)]] ++ [])).
Proof.
  apply (dispatcher_returns_only_for_non_empty_batch zero_distances
           [[(0, 1)]; [(1, 3)]] None
           (MetricName "persistence_weighted_gaussian") no_kwargs
           (gram (fun D1 D2 => persistence_weighted_gaussian_kernel D1 D2
                                 default_weight None 1)
              [[(0, 1)]; [(1, 3)]] [[(0, 1)]; [(1, 3)]])).
  rewrite dispatch_persistence_weighted_gaussian.
  apply self_point_kernel_run; [discriminate | simpl; lia |].
  intros D1 D2 H1 H2. apply call_weighted_gaussian_defaults.
  - destruct H1 as [<-|[<-|[]]]; discriminate.
  - destruct H2 as [<-|[<-|[]]]; discriminate.
Defined.

(** X13: for each of the four built-in metrics, omitting the second
    collection is the same as passing the first collection twice, results
    and exceptions alike, as long as the distance computation itself makes
    no difference between the two calls. *)
Theorem omitted_second_collection :
  forall (distances : DiagramDistances) (X : list Diagram) (name : string)
         (kwargs : Kwargs),
    In name ["sliced_wasserstein"; "persistence_fisher";
             "persistence_scale_space"; "persistence_weighted_gaussian"] ->
    (forall name kw, distances X None name kw
                     = distances X (Some X) name kw) ->
    pairwise_persistence_diagram_kernels distances X None (MetricName name)
      kwargs
    = pairwise_persistence_diagram_kernels distances X (Some X)
        (MetricName name) kwargs.
Proof.
  intros distances X name kwargs Hname Hdist.
  unfold pairwise_persistence_diagram_kernels.
  rewrite padded_representation_self_pair.
  destruct (padded_representation X None) as [[XX YY]|e] eqn:E;
    [|reflexivity].
  apply padded_representation_self_inv in E as [_ [_ E]].
  injection E as -> ->.
  simpl in Hname.
  destruct Hname as [<- | [<- | [<- | [<- | []]]]]; simpl.
  - destruct (kw_num_directions kwargs); simpl; [|reflexivity].
    now rewrite Hdist.
  - destruct (kw_kernel_approx kwargs); simpl; [|reflexivity].
    destruct (kw_bandwidth kwargs); simpl; [|reflexivity].
    now rewrite Hdist.
  - reflexivity.
  - reflexivity.
Qed.

Lemma omitted_second_collection_witness :
  pairwise_persistence_diagram_kernels zero_distances
    [[(0, 1)]; [(1, 3)]] None
    (MetricName "persistence_scale_space") no_kwargs
  = pairwise_persistence_diagram_kernels zero_distances [[(0, 1)]; [(1, 3)]]
      (Some [[(0, 1)]; [(1, 3)]]) (MetricName "persistence_scale_space")
      no_kwargs.
Proof.
  apply omitted_second_collection; [simpl; tauto | reflexivity].
Defined.

(** The run of a point kernel on two collections. *)
Lemma pair_point_kernel_run
    (call : Diagram -> Diagram -> Kwargs -> result R)
    (k : Diagram -> Diagram -> R) (kwargs : Kwargs) (A B : list Diagram) :
  A <> [] -> B <> [] -> (0 < max_pts (A ++ B))%nat ->
  (forall D1 D2, In D1 A -> In D2 B -> call D1 D2 kwargs = Ok (k D1 D2)) ->
  (padded <- padded_representation A (Some B) ;;
   pairwise_kernels (fst padded) (snd padded) (sklearn_wrapper call kwargs))
  = Ok (gram k A B).
Proof.
  intros HA HB HL Hcall.
  rewrite padded_representation_pair by assumption. simpl bind.
  apply pairwise_kernels_wrapper_pair;
    [apply max_pts_app_l | apply max_pts_app_r | exact Hcall].
Qed.

Lemma call_weighted_gaussian_rejects (kwargs : Kwargs) :
  kw_num_directions kwargs <> None \/ kw_bandwidth_fisher kwargs <> None ->
  forall D1 D2,
    call_persistence_weighted_gaussian_kernel D1 D2 kwargs = Raise TypeError.
Proof.
  intros H D1 D2. unfold call_persistence_weighted_gaussian_kernel.
  destruct (kw_num_directions kwargs), (kw_bandwidth_fisher kwargs);
    simpl; try reflexivity.
  destruct H; congruence.
Qed.

Lemma call_scale_space_rejects (kwargs : Kwargs) :
  kw_num_directions kwargs <> None \/ kw_bandwidth_fisher kwargs <> None
  \/ kw_weight kwargs <> None ->
  forall D1 D2,
    call_persistence_scale_space_kernel D1 D2 kwargs = Raise TypeError.
Proof.
  intros H D1 D2. unfold call_persistence_scale_space_kernel.
  destruct (kw_num_directions kwargs), (kw_bandwidth_fisher kwargs),
    (kw_weight kwargs); simpl; try reflexivity.
  destruct H as [H|[H|H]]; congruence.
Qed.

(** ** Point kernels on a single collection *)

(** X14: for a non-empty collection [X] of non-empty diagrams and keyword
    arguments accepted by the kernel function, the dispatcher
    called without second collection returns, for the metrics
    ["persistence_weighted_gaussian"] and ["persistence_scale_space"], the
    square matrix whose entry [(i, j)] is the kernel of [X[i]] and [X[j]],
    computed with the keyword arguments given and the defaults of the
    kernel function for the others. *)
Theorem self_kernel_matrix_entries :
  forall (distances : DiagramDistances) (X : list Diagram) (kwargs : Kwargs),
    X <> [] -> Forall (fun D => D <> []) X ->
    kw_num_directions kwargs = None -> kw_bandwidth_fisher kwargs = None ->
    pairwise_persistence_diagram_kernels distances X None
      (MetricName "persistence_weighted_gaussian") kwargs
    = Ok (gram (fun D1 D2 =>
                  persistence_weighted_gaussian_kernel D1 D2
                    (weight_or_default kwargs)
                    (kernel_approx_or_default kwargs)
                    (bandwidth_or_default kwargs)) X X)
    /\ (kw_weight kwargs = None ->
        pairwise_persistence_diagram_kernels distances X None
          (MetricName "persistence_scale_space") kwargs
        = Ok (gram (fun D1 D2 =>
                      persistence_scale_space_kernel D1 D2
                        (kernel_approx_or_default kwargs)
                        (bandwidth_or_default kwargs)) X X)).
Proof.
  intros distances X kwargs HX Hne Hnd Hbf.
  pose proof (max_pts_pos X HX Hne) as HL. split.
  - rewrite dispatch_persistence_weighted_gaussian.
    apply self_point_kernel_run; try assumption.
    intros D1 D2 H1 H2.
    apply call_weighted_gaussian_accepts; try assumption;
      eapply Forall_not_empty_In; eassumption.
  - intros Hw. rewrite dispatch_persistence_scale_space.
    apply self_point_kernel_run; try assumption.
    intros D1 D2 H1 H2.
    apply call_scale_space_accepts; try assumption;
      eapply Forall_not_empty_In; eassumption.
Qed.

Lemma self_kernel_matrix_entries_witness :
  pairwise_persistence_diagram_kernels zero_distances
    [[(0, 1)]; [(1, 3); (2, 5)]] None
    (MetricName "persistence_weighted_gaussian") no_kwargs
  = Ok (gram (fun D1 D2 =>
                persistence_weighted_gaussian_kernel D1 D2
                  default_weight None 1)
          [[(0, 1)]; [(1, 3); (2, 5)]] [[(0, 1)]; [(1, 3); (2, 5)]]).
Proof.
  apply (self_kernel_matrix_entries zero_distances
           [[(0, 1)]; [(1, 3); (2, 5)]] no_kwargs);
    [discriminate | repeat constructor; discriminate
     | reflexivity | reflexivity].
Defined.

(** ** Rejected calls *)

(** X15: a keyword argument that is not a parameter of the kernel function
    makes the call fail.  With the metric ["persistence_scale_space"] and a
    keyword [weight], [num_directions] or [bandwidth_fisher], or with the
    metric ["persistence_weighted_gaussian"] and a keyword [num_directions]
    or [bandwidth_fisher], the dispatcher never returns a matrix, and
    raises [TypeError] as soon as the padded representation exists. *)
Theorem foreign_keyword_type_error :
  forall (distances : DiagramDistances) (X : list Diagram)
         (Y : option (list Diagram)) (kwargs : Kwargs),
    (kw_num_directions kwargs <> None \/ kw_bandwidth_fisher kwargs <> None
     \/ kw_weight kwargs <> None ->
     (forall M, pairwise_persistence_diagram_kernels distances X Y
                  (MetricName "persistence_scale_space") kwargs <> Ok M)
     /\ (forall padded,
           padded_representation X Y = Ok padded ->
           pairwise_persistence_diagram_kernels distances X Y
             (MetricName "persistence_scale_space") kwargs
           = Raise TypeError))
    /\ (kw_num_directions kwargs <> None \/ kw_bandwidth_fisher kwargs <> None
        ->
        (forall M, pairwise_persistence_diagram_kernels distances X Y
                     (MetricName "persistence_weighted_gaussian") kwargs
                   <> Ok M)
        /\ (forall padded,
              padded_representation X Y = Ok padded ->
              pairwise_persistence_diagram_kernels distances X Y
                (MetricName "persistence_weighted_gaussian") kwargs
              = Raise TypeError)).
Proof.
  intros distances X Y kwargs. split; intros Hforeign.
  - assert (H : forall padded,
               padded_representation X Y = Ok padded ->
               pairwise_persistence_diagram_kernels distances X Y
                 (MetricName "persistence_scale_space") kwargs
               = Raise TypeError).
    { intros padded Hpadded.
      rewrite dispatch_persistence_scale_space, Hpadded. simpl bind.
      apply (padded_pairwise_kernels_Raise X Y); [assumption|].
      now apply call_scale_space_rejects. }
    split; [|exact H].
    intros M HM.
    pose proof HM as HM'.
    rewrite dispatch_persistence_scale_space in HM'.
    apply bind_Ok_inv in HM' as [padded [Hpadded _]].
    rewrite (H padded Hpadded) in HM. discriminate.
  - assert (H : forall padded,
               padded_representation X Y = Ok padded ->
               pairwise_persistence_diagram_kernels distances X Y
                 (MetricName "persistence_weighted_gaussian") kwargs
               = Raise TypeError).
    { intros padded Hpadded.
      rewrite dispatch_persistence_weighted_gaussian, Hpadded. simpl bind.
      apply (padded_pairwise_kernels_Raise X Y); [assumption|].
      now apply call_weighted_gaussian_rejects. }
    split; [|exact H].
    intros M HM.
    pose proof HM as HM'.
    rewrite dispatch_persistence_weighted_gaussian in HM'.
    apply bind_Ok_inv in HM' as [padded [Hpadded _]].
    rewrite (H padded Hpadded) in HM. discriminate.
Qed.

Lemma foreign_keyword_type_error_witness :
  pairwise_persistence_diagram_kernels zero_distances
    [[(0, 1)]] (Some [[(1, 3)]]) (MetricName "persistence_scale_space")
    {| kw_num_directions := None; kw_bandwidth := Some 1;
       kw_bandwidth_fisher := None; kw_kernel_approx := None;
       kw_weight := Some default_weight |}
  = Raise TypeError.
Proof.
  destruct (foreign_keyword_type_error zero_distances
              [[(0, 1)]] (Some [[(1, 3)]])
              {| kw_num_directions := None; kw_bandwidth := Some 1;
                 kw_bandwidth_fisher := None; kw_kernel_approx := None;
                 kw_weight := Some default_weight |}) as [H _].
  destruct H as [_ H].
  - right. right. discriminate.
  - apply (H (map (flatten_padded 1) [[(0, 1)]],
              Some (map (flatten_padded 1) [[(1, 3)]]))).
    apply (padded_representation_pair [[(0, 1)]] [[(1, 3)]]);
      [discriminate | discriminate | simpl; lia].
Defined.

Lemma dispatch_fallback (distances : DiagramDistances) (X : list Diagram)
    (Y : option (list Diagram)) (metric : Metric) (kwargs : Kwargs) :
  metric_eq metric "sliced_wasserstein" = false ->
  metric_eq metric "persistence_fisher" = false ->
  metric_eq metric "persistence_scale_space" = false ->
  metric_eq metric "persistence_weighted_gaussian" = false ->
  pairwise_persistence_diagram_kernels distances X Y metric kwargs
  = (padded <- padded_representation X Y ;;
     pairwise_kernels (fst padded) (snd padded)
       (sklearn_wrapper (call_metric metric) kwargs)).
Proof.
  intros H1 H2 H3 H4. unfold pairwise_persistence_diagram_kernels.
  now rewrite H1, H2, H3, H4.
Qed.

(** X16: a metric given as a string other than the four built-in names
    falls through to the branch of the user-supplied functions, where the
    string is called: the dispatcher never returns a matrix, and raises
    [TypeError] as soon as the padded representation exists. *)
Theorem unknown_metric_name_type_error :
  forall (distances : DiagramDistances) (X : list Diagram)
         (Y : option (list Diagram)) (name : string) (kwargs : Kwargs),
    ~ In name ["sliced_wasserstein"; "persistence_fisher";
               "persistence_scale_space"; "persistence_weighted_gaussian"] ->
    (forall M, pairwise_persistence_diagram_kernels distances X Y
                 (MetricName name) kwargs <> Ok M)
    /\ (forall padded,
          padded_representation X Y = Ok padded ->
          pairwise_persistence_diagram_kernels distances X Y
            (MetricName name) kwargs = Raise TypeError).
Proof.
  intros distances X Y name kwargs Hname.
  assert (Hbranch :
            pairwise_persistence_diagram_kernels distances X Y
              (MetricName name) kwargs
            = (padded <- padded_representation X Y ;;
               pairwise_kernels (fst padded) (snd padded)
                 (sklearn_wrapper (call_metric (MetricName name)) kwargs))).
  { apply dispatch_fallback; simpl; apply String.eqb_neq;
      intros ->; apply Hname; simpl; tauto. }
  assert (H : forall padded,
             padded_representation X Y = Ok padded ->
             pairwise_persistence_diagram_kernels distances X Y
               (MetricName name) kwargs = Raise TypeError).
  { intros padded Hpadded. rewrite Hbranch, Hpadded. simpl bind.
    now apply (padded_pairwise_kernels_Raise X Y). }
  split; [|exact H].
  intros M HM. pose proof HM as HM'. rewrite Hbranch in HM'.
  apply bind_Ok_inv in HM' as [padded [Hpadded _]].
  rewrite (H padded Hpadded) in HM. discriminate.
Qed.

Lemma unknown_metric_name_type_error_witness :
  pairwise_persistence_diagram_kernels zero_distances [[(0, 1)]] None
    (MetricName "bottleneck") no_kwargs
  = Raise TypeError.
Proof.
  destruct (unknown_metric_name_type_error zero_distances [[(0, 1)]] None
              "bottleneck" no_kwargs) as [_ H].
  - simpl. intros [H|[H|[H|[H|[]]]]]; discriminate H.
  - apply (H (map (flatten_padded 1) [[(0, 1)]], None)).
    apply (padded_representation_self [[(0, 1)]]);
      [discriminate | simpl; lia].
Defined.

(** ** Exchanging the two collections *)

(** X17: for the metrics ["persistence_scale_space"] and
    ["persistence_weighted_gaussian"], when the dispatcher returns a matrix
    for the collections [A] and [B], it returns one for [B] and [A] too,
    and that matrix is the transpose of the first. *)
Theorem point_kernel_matrix_transpose :
  forall (distances : DiagramDistances) (A B : list Diagram) (name : string)
         (kwargs : Kwargs) (M : list (list R)),
    name = "persistence_scale_space"
    \/ name = "persistence_weighted_gaussian" ->
    pairwise_persistence_diagram_kernels distances A (Some B)
      (MetricName name) kwargs = Ok M ->
    exists M',
      pairwise_persistence_diagram_kernels distances B (Some A)
        (MetricName name) kwargs = Ok M'
      /\ has_shape (length B) (length A) M'
      /\ forall i j, (i < length A)%nat -> (j < length B)%nat ->
                     entry M' j i = entry M i j.
Proof.
  intros distances A B name kwargs M Hname H.
  destruct Hname as [-> | ->].
  - rewrite dispatch_persistence_scale_space in H.
    apply pair_point_kernel_matrix
      with (k := fun D1 D2 =>
                   persistence_scale_space_kernel D1 D2
                     (kernel_approx_or_default kwargs)
                     (bandwidth_or_default kwargs)) in H;
      [| apply call_scale_space_value].
    destruct H as [HA [HB [HL [Hcall ->]]]].
    eexists. split; [|split].
    + rewrite dispatch_persistence_scale_space.
      apply pair_point_kernel_run; try assumption.
      * rewrite max_pts_app in *. lia.
      * intros D1 D2 H1 H2.
        rewrite call_scale_space_sym, scale_space_sym. now apply Hcall.
    + apply gram_shape.
    + intros i j Hi Hj. rewrite !gram_entry by assumption.
      apply scale_space_sym.
  - rewrite dispatch_persistence_weighted_gaussian in H.
    apply pair_point_kernel_matrix
      with (k := fun D1 D2 =>
                   persistence_weighted_gaussian_kernel D1 D2
                     (weight_or_default kwargs)
                     (kernel_approx_or_default kwargs)
                     (bandwidth_or_default kwargs)) in H;
      [| apply call_weighted_gaussian_value].
    destruct H as [HA [HB [HL [Hcall ->]]]].
    eexists. split; [|split].
    + rewrite dispatch_persistence_weighted_gaussian.
      apply pair_point_kernel_run; try assumption.
      * rewrite max_pts_app in *. lia.
      * intros D1 D2 H1 H2.
        rewrite call_weighted_gaussian_sym, weighted_gaussian_sym.
        now apply Hcall.
    + apply gram_shape.
    + intros i j Hi Hj. rewrite !gram_entry by assumption.
      apply weighted_gaussian_sym.
Qed.

Lemma point_kernel_matrix_transpose_witness :
  exists M',
    pairwise_persistence_diagram_kernels zero_distances
      [[(1, 3)]; [(2, 5)]] (Some [[(0, 1)]])
      (MetricName "persistence_weighted_gaussian") no_kwargs = Ok M'
    /\ has_shape 2 1 M'
    /\ forall i j, (i < 1)%nat -> (j < 2)%nat ->
         entry M' j i
         = entry (gram (fun D1 D2 =>
                          persistence_weighted_gaussian_kernel D1 D2
                            default_weight None 1)
                    [[(0, 1)]] [[(1, 3)]; [(2, 5)]]) i j.
Proof.
  apply (point_kernel_matrix_transpose zero_distances
           [[(0, 1)]] [[(1, 3)]; [(2, 5)]] "persistence_weighted_gaussian"
           no_kwargs).
  - now right.
  - rewrite dispatch_persistence_weighted_gaussian.
    apply pair_point_kernel_run;
      [discriminate | discriminate | simpl; lia |].
    intros D1 D2 H1 H2. apply call_weighted_gaussian_defaults.
    + destruct H1 as [<-|[]]; discriminate.
    + destruct H2 as [<-|[<-|[]]]; discriminate.
Defined.

(** ** The estimators *)

(** X18: [transform] before [fit] raises [AttributeError]; after
    [fit], for a non-empty query [A] and a non-empty reference [B] of
    non-empty diagrams, [transform] computes the kernel of every
    query diagram (rows) and every reference diagram (columns) with the
    hyperparameters of the estimator: the persistence weighted Gaussian
    kernel with its weight, kernel approximation and bandwidth, the
    persistence scale space kernel with its kernel approximation and
    bandwidth, and, for the sliced Wasserstein kernel, the exponential of
    minus the distances computed with its [num_directions] over its
    bandwidth.  A second [fit] replaces the reference. *)
Theorem estimators_fit_transform :
  forall (distances : DiagramDistances) (A B B0 : list Diagram),
    A <> [] -> B <> [] ->
    Forall (fun D => D <> []) A -> Forall (fun D => D <> []) B ->
    (forall bandwidth weight kernel_approx,
        PersistenceWeightedGaussianKernel.transform distances
          (PersistenceWeightedGaussianKernel.init bandwidth weight
             kernel_approx) A
        = Raise AttributeError
        /\ PersistenceWeightedGaussianKernel.transform distances
             (PersistenceWeightedGaussianKernel.fit
                (PersistenceWeightedGaussianKernel.fit
                   (PersistenceWeightedGaussianKernel.init bandwidth weight
                      kernel_approx) B0) B) A
           = Ok (gram (fun D1 D2 =>
                         persistence_weighted_gaussian_kernel D1 D2 weight
                           kernel_approx bandwidth) A B))
    /\ (forall bandwidth kernel_approx,
          PersistenceScaleSpaceKernel.transform distances
            (PersistenceScaleSpaceKernel.init bandwidth kernel_approx) A
          = Raise AttributeError
          /\ PersistenceScaleSpaceKernel.transform distances
               (PersistenceScaleSpaceKernel.fit
                  (PersistenceScaleSpaceKernel.fit
                     (PersistenceScaleSpaceKernel.init bandwidth
                        kernel_approx) B0) B) A
             = Ok (gram (fun D1 D2 =>
                           persistence_scale_space_kernel D1 D2
                             kernel_approx bandwidth) A B))
    /\ (forall num_directions bandwidth,
          SlicedWassersteinKernel.transform distances
            (SlicedWassersteinKernel.init num_directions bandwidth) A
          = Raise AttributeError
          /\ SlicedWassersteinKernel.transform distances
               (SlicedWassersteinKernel.fit
                  (SlicedWassersteinKernel.fit
                     (SlicedWassersteinKernel.init num_directions bandwidth)
                     B0) B) A
             = (Dist <- distances A (Some B) "sliced_wasserstein"
                          {| kw_num_directions := Some num_directions;
                             kw_bandwidth := None;
                             kw_bandwidth_fisher := None;
                             kw_kernel_approx := None;
                             kw_weight := None |} ;;
                Ok (exp_neg_div Dist bandwidth))).
Proof.
  intros distances A B B0 HA HB HneA HneB.
  assert (HL : (0 < max_pts (A ++ B))%nat).
  { rewrite max_pts_app. pose proof (max_pts_pos A HA HneA). lia. }
  split; [|split].
  - intros b w ka. split; [reflexivity|].
    unfold PersistenceWeightedGaussianKernel.transform. simpl bind.
    rewrite dispatch_persistence_weighted_gaussian.
    apply pair_point_kernel_run; try assumption.
    intros D1 D2 H1 H2.
    apply (call_weighted_gaussian_accepts
             {| kw_num_directions := None; kw_bandwidth := Some b;
                kw_bandwidth_fisher := None; kw_kernel_approx := Some ka;
                kw_weight := Some w |} eq_refl eq_refl);
      [exact (Forall_not_empty_In A D1 HneA H1)
      | exact (Forall_not_empty_In B D2 HneB H2)].
  - intros b ka. split; [reflexivity|].
    unfold PersistenceScaleSpaceKernel.transform. simpl bind.
    rewrite dispatch_persistence_scale_space.
    apply pair_point_kernel_run; try assumption.
    intros D1 D2 H1 H2.
    apply (call_scale_space_accepts
             {| kw_num_directions := None; kw_bandwidth := Some b;
                kw_bandwidth_fisher := None; kw_kernel_approx := Some ka;
                kw_weight := None |} eq_refl eq_refl eq_refl);
      [exact (Forall_not_empty_In A D1 HneA H1)
      | exact (Forall_not_empty_In B D2 HneB H2)].
  - intros nd b. split; [reflexivity|].
    unfold SlicedWassersteinKernel.transform. simpl bind.
    rewrite dispatch_sliced_wasserstein.
    rewrite padded_representation_pair by assumption.
    reflexivity.
Qed.

Lemma estimators_fit_transform_witness :
  PersistenceScaleSpaceKernel.transform zero_distances
    (PersistenceScaleSpaceKernel.fit
       (PersistenceScaleSpaceKernel.fit
          (PersistenceScaleSpaceKernel.init 2 None) [])
       [[(1, 3)]; [(2, 5)]]) [[(0, 1)]]
  = Ok (gram (fun D1 D2 => persistence_scale_space_kernel D1 D2 None 2)
          [[(0, 1)]] [[(1, 3)]; [(2, 5)]]).
Proof.
  assert (HA : [[(0, 1)]] <> @nil (list (R * R))) by discriminate.
  assert (HB : [[(1, 3)]; [(2, 5)]] <> @nil (list (R * R))) by discriminate.
  assert (HneA : Forall (fun D : list (R * R) => D <> []) [[(0, 1)]])
    by (repeat constructor; discriminate).
  assert (HneB : Forall (fun D : list (R * R) => D <> [])
                   [[(1, 3)]; [(2, 5)]])
    by (repeat constructor; discriminate).
  destruct (estimators_fit_transform zero_distances _ _ [] HA HB HneA HneB)
    as [_ [H _]].
  exact (proj2 (H 2 None)).
Defined.
